(** * Dialect adapters of the ORM core: ClickHouse and PostgreSQL drivers

    A shallow embedding of [contrib/drivers/clickhouse/clickhouse.go] and
    [contrib/drivers/pgsql/pgsql.go], and the properties of the statement
    rewriter, the capability gate, the type converter, the schema
    introspector and the execution adapter that the specification states
    about them.

    SQL text is a [string] of bytes, as a Go [string] is. *)

From stdpp Require Import gmap strings list.
From Stdlib Require Import String Ascii ZArith Lia Bool DecimalString.

Local Open Scope string_scope.

(** ** Byte strings *)

Module Str.

Definition eqb_ascii (a b : ascii) : bool := Ascii.eqb a b.

(** [strings.Contains]-style scanning is built from [strip_prefix]:
    [strip_prefix p s] is [Some r] exactly when [s = p ++ r]. *)
Fixpoint strip_prefix (p s : string) : option string :=
  match p with
  | EmptyString => Some s
  | String a p' =>
      match s with
      | EmptyString => None
      | String b s' => if Ascii.eqb a b then strip_prefix p' s' else None
      end
  end.

(** [strings.Contains(s, sub)]. *)
Fixpoint contains (s sub : string) : bool :=
  match strip_prefix sub s with
  | Some _ => true
  | None =>
      match s with
      | EmptyString => false
      | String _ s' => contains s' sub
      end
  end.

Definition code (c : ascii) : nat := nat_of_ascii c.

Definition between (lo hi : nat) (c : ascii) : bool :=
  (lo <=? code c)%nat && (code c <=? hi)%nat.

Definition is_digit (c : ascii) : bool := between 48 57 c.
Definition is_upper (c : ascii) : bool := between 65 90 c.
Definition is_lower (c : ascii) : bool := between 97 122 c.

(** Perl class [\w] of Go's regexp: [0-9A-Za-z_]. *)
Definition is_word (c : ascii) : bool :=
  is_digit c || is_upper c || is_lower c || Ascii.eqb c "_"%char.

(** Perl class [\s] of Go's regexp: [\t\n\f\r ]. *)
Definition is_space (c : ascii) : bool :=
  (code c =? 9)%nat || (code c =? 10)%nat || (code c =? 12)%nat
  || (code c =? 13)%nat || (code c =? 32)%nat.

(** [unicode.IsSpace] on the Latin-1 range, as [strings.TrimSpace] uses it
    on single bytes: the [\s] bytes, vertical tab, NEL and NBSP are the
    ones below 0x100; the last two are not single bytes in UTF-8, so on
    bytes the cut set is [\t\n\v\f\r ]. *)
Definition is_trim_space (c : ascii) : bool :=
  is_space c || (code c =? 11)%nat.

Definition to_upper_ascii (c : ascii) : ascii :=
  if is_lower c then ascii_of_nat (code c - 32) else c.

Definition to_lower_ascii (c : ascii) : ascii :=
  if is_upper c then ascii_of_nat (code c + 32) else c.

Fixpoint map (f : ascii -> ascii) (s : string) : string :=
  match s with
  | EmptyString => EmptyString
  | String a s' => String (f a) (map f s')
  end.

(** [strings.ToUpper] on ASCII text. *)
Definition ToUpper (s : string) : string := map to_upper_ascii s.

Fixpoint trim_left (s : string) : string :=
  match s with
  | String a s' => if is_trim_space a then trim_left s' else s
  | EmptyString => EmptyString
  end.

Fixpoint rev_onto (s acc : string) : string :=
  match s with
  | EmptyString => acc
  | String a s' => rev_onto s' (String a acc)
  end.

Definition rev (s : string) : string := rev_onto s EmptyString.

(** [strings.TrimSpace]. *)
Definition TrimSpace (s : string) : string :=
  rev (trim_left (rev (trim_left s))).

Fixpoint forallb (p : ascii -> bool) (s : string) : bool :=
  match s with
  | EmptyString => true
  | String a s' => p a && forallb p s'
  end.

(** [fmt.Sprintf("%d", n)] for a non-negative [n]. *)
Definition dec (n : nat) : string := NilZero.string_of_uint (Nat.to_uint n).

End Str.

(** ** Regular expressions

    Modelled from the spec: package [text/gregex] is not among the sources;
    its functions wrap Go's [regexp] ([MatchString] is [FindStringSubmatch],
    [ReplaceString] is [ReplaceAllString], [ReplaceStringFunc] and
    [ReplaceStringFuncMatch] are [ReplaceAllStringFunc] with the matched text,
    resp. its submatches, handed to the callback).  What follows is the
    fragment of that syntax the two drivers' patterns are written in, with
    Go's leftmost-first (backtracking priority) meaning: a greedy quantifier
    tries the longer match first, a lazy one the shorter, an alternation its
    left branch.  Matching is bytewise; the classes [\w], [\d] and [\s] are
    ASCII in Go, and under [(?i)] only the ASCII case pairs are folded. *)

Module Regexp.

(** Character classes. *)
Inductive cls : Type :=
| CWord            (* \w *)
| CDigit           (* \d *)
| CSpace           (* \s *)
| CNotWord         (* [^\w\d] *)
| CAny             (* .  (no newline) *)
| CChar (c : ascii).

Definition in_cls (c : cls) (a : ascii) : bool :=
  match c with
  | CWord => Str.is_word a
  | CDigit => Str.is_digit a
  | CSpace => Str.is_space a
  | CNotWord => negb (Str.is_word a || Str.is_digit a)
  | CAny => negb (Str.code a =? 10)%nat
  | CChar b => Ascii.eqb b a
  end.

(** Patterns.  Quantifiers are applied to character classes only, which is
    all the drivers' patterns need and keeps the matcher structural. *)
Inductive re : Type :=
| Eps
| Bol                                   (* ^ *)
| Lit (fold : bool) (s : string)        (* literal text; [fold] under (?i) *)
| Cls (c : cls)
| Star (greedy : bool) (c : cls)        (* c* and c*? *)
| Cat (r1 r2 : re)
| Alt (r1 r2 : re)
| Grp (n : nat) (r : re).               (* n-th capturing group *)

Definition Plus (greedy : bool) (c : cls) : re := Cat (Cls c) (Star greedy c).
Definition Opt (r : re) : re := Alt r Eps.

(** Submatches found so far, innermost assignment first. *)
Definition caps : Type := list (nat * string).

Fixpoint sub (cs : caps) (n : nat) : string :=
  match cs with
  | [] => EmptyString
  | (m, w) :: cs' => if (m =? n)%nat then w else sub cs' n
  end.

Definition eq_char (fold : bool) (a b : ascii) : bool :=
  if fold then Ascii.eqb (Str.to_lower_ascii a) (Str.to_lower_ascii b)
  else Ascii.eqb a b.

(** [lit fold p s] is [Some (w, rest)] when [s = w ++ rest] and [w] is [p]
    up to case folding. *)
Fixpoint lit (fold : bool) (p s : string) : option (string * string) :=
  match p with
  | EmptyString => Some (EmptyString, s)
  | String a p' =>
      match s with
      | EmptyString => None
      | String b s' =>
          if eq_char fold a b then
            match lit fold p' s' with
            | Some (w, rest) => Some (String b w, rest)
            | None => None
            end
          else None
      end
  end.

Section Matcher.

Context {A : Type}.

(** A continuation receives the text matched by the pattern it follows and
    the text left. *)
Definition orelse (x y : option A) : option A :=
  match x with Some _ => x | None => y end.

Fixpoint star (greedy : bool) (c : cls) (s : string)
    (k : string -> string -> option A) : option A :=
  match s with
  | String a s' =>
      if in_cls c a then
        if greedy
        then orelse (star greedy c s' (fun w rest => k (String a w) rest))
                    (k EmptyString s)
        else orelse (k EmptyString s)
                    (star greedy c s' (fun w rest => k (String a w) rest))
      else k EmptyString s
  | EmptyString => k EmptyString s
  end.

(** [exec r bol s cs k]: match [r] at the head of [s]; [bol] tells whether
    the head of [s] is the beginning of the text. *)
Fixpoint exec (r : re) (bol : bool) (s : string) (cs : caps)
    (k : string -> caps -> string -> option A) : option A :=
  match r with
  | Eps => k EmptyString cs s
  | Bol => if bol then k EmptyString cs s else None
  | Lit fold p =>
      match lit fold p s with
      | Some (w, rest) => k w cs rest
      | None => None
      end
  | Cls c =>
      match s with
      | String a s' =>
          if in_cls c a then k (String a EmptyString) cs s' else None
      | EmptyString => None
      end
  | Star greedy c => star greedy c s (fun w rest => k w cs rest)
  | Cat r1 r2 =>
      exec r1 bol s cs (fun w1 cs1 rest1 =>
        exec r2 (bol && (String.length w1 =? 0)%nat) rest1 cs1
          (fun w2 cs2 rest2 => k (w1 ++ w2) cs2 rest2))
  | Alt r1 r2 => orelse (exec r1 bol s cs k) (exec r2 bol s cs k)
  | Grp n r => exec r bol s cs (fun w cs' rest => k w ((n, w) :: cs') rest)
  end.

End Matcher.

(** Whether the first byte of [s] is in the class [c]. *)
Definition starts_in (c : cls) (s : string) : bool :=
  match s with String a _ => in_cls c a | EmptyString => false end.

(** A match: the matched text, the submatches, the text after the match. *)
Record found : Type := Found { whole : string; groups : caps; after : string }.

Definition match_at (r : re) (bol : bool) (s : string) : option found :=
  exec r bol s [] (fun w cs rest => Some (Found w cs rest)).

(** The leftmost match in [s]. *)
Fixpoint find (r : re) (bol : bool) (s : string) : option found :=
  match match_at r bol s with
  | Some m => Some m
  | None =>
      match s with
      | String _ s' => find r false s'
      | EmptyString => None
      end
  end.

(** [FindStringSubmatch]: the matched text followed by the submatches
    [1..n]; the empty slice when nothing matches. *)
Definition FindStringSubmatch (r : re) (n : nat) (s : string) : list string :=
  match find r true s with
  | Some m => whole m :: List.map (sub (groups m)) (seq 1 n)
  | None => []
  end.

(** [ReplaceAllStringFunc], with the callback threading a state (the Go
    callbacks are closures).  [skip] counts the bytes of the last match still
    to be passed over.  A match of the empty string is passed over: none of
    the drivers' patterns has one. *)
Fixpoint replace_go {St : Type} (r : re) (f : St -> found -> St * string)
    (st : St) (bol : bool) (skip : nat) (s : string) : St * string :=
  match s with
  | EmptyString => (st, EmptyString)
  | String a s' =>
      match skip with
      | S n => replace_go r f st false n s'
      | O =>
          match match_at r bol s with
          | Some (Found (String b w) cs rest) =>
              let (st1, out) := f st (Found (String b w) cs rest) in
              let (st2, tl) := replace_go r f st1 false (String.length w) s' in
              (st2, out ++ tl)
          | _ =>
              let (st2, tl) := replace_go r f st false 0 s' in
              (st2, String a tl)
          end
      end
  end.

Definition ReplaceAllFunc {St : Type} (r : re) (f : St -> found -> St * string)
    (st : St) (s : string) : St * string :=
  replace_go r f st true 0 s.

(** Template expansion of [ReplaceAllString] ([Regexp.Expand]): [$name]
    takes the longest run of word characters as the name; a numeric name is
    a submatch index, any other name an (absent) named group; [$$] is a
    dollar sign. *)
Fixpoint nat_of_digits (acc : nat) (s : string) : option nat :=
  match s with
  | EmptyString => Some acc
  | String a s' =>
      if Str.is_digit a
      then nat_of_digits (10 * acc + (Str.code a - 48)) s'
      else None
  end.

Definition expand_name (name : string) (m : found) : string :=
  match name with
  | EmptyString => "$"
  | _ =>
      match nat_of_digits 0 name with
      | Some 0 => whole m
      | Some n => sub (groups m) n
      | None => EmptyString
      end
  end.

(** [pending] is the name being read after a dollar sign, reversed. *)
Fixpoint expand_go (tpl : string) (pending : option string) (m : found) : string :=
  match tpl with
  | EmptyString =>
      match pending with
      | Some name => expand_name (Str.rev name) m
      | None => EmptyString
      end
  | String a tpl' =>
      match pending with
      | Some name =>
          if Str.is_word a then expand_go tpl' (Some (String a name)) m
          else
            match name, Ascii.eqb a "$"%char with
            | EmptyString, true => String "$"%char (expand_go tpl' None m)
            | _, true => expand_name (Str.rev name) m ++ expand_go tpl' (Some EmptyString) m
            | _, false => expand_name (Str.rev name) m ++ String a (expand_go tpl' None m)
            end
      | None =>
          if Ascii.eqb a "$"%char then expand_go tpl' (Some EmptyString) m
          else String a (expand_go tpl' None m)
      end
  end.

Definition expand (tpl : string) (m : found) : string := expand_go tpl None m.

Definition ReplaceAllString (r : re) (tpl : string) (s : string) : string :=
  snd (ReplaceAllFunc r (fun (st : unit) m => (st, expand tpl m)) tt s).

End Regexp.

(** ** The ORM core's types ([database/gdb], [context], [errors])

    Only what the two drivers touch.  The core itself is outside the
    sources; where a driver calls into it, the call is a field of an
    environment record. *)

Module Gdb.

(** Go [error] values.  [errors.New] makes a value identified by its
    variable; [gerror.NewCode] and [fmt.Errorf] results are identified by
    code and text. *)
Inductive error : Type :=
| ErrNamed (text : string)
| ErrNotSupported (text : string)
| ErrOperation (text : string)
| ErrDriver (text : string).

(** [gdb.TableField]; [Default] is kept as the catalog's text. *)
Record TableField : Type := {
  Index : Z;
  Name : string;
  Type_ : string;
  Null : bool;
  Key : string;
  Default : option string;
  Comment : string
}.

(** A value stored in a [context.Context]. *)
Inductive ctx_value : Type :=
| CtxBool (b : bool)
| CtxField (f : TableField)
| CtxOpaque (tag : string).

(** [context.Context]: the chain of [WithValue] bindings, innermost first. *)
Definition Context : Type := list (string * ctx_value).

(** [ctx.Value(key)]; [None] is Go's [nil]. *)
Fixpoint Value (ctx : Context) (key : string) : option ctx_value :=
  match ctx with
  | [] => None
  | (k, v) :: ctx' => if String.eqb k key then Some v else Value ctx' key
  end.

Definition WithValue (ctx : Context) (key : string) (v : ctx_value) : Context :=
  (key, v) :: ctx.

(** [gdb.Link]: [None] is the nil link. *)
Record Link : Type := { link_id : nat; IsTransaction : bool }.

(** [*gvar.Var] as the drivers read it; the conversions belong to [gvar]
    and [gconv], outside the sources. *)
Class VarOps (Var : Type) : Type := {
  var_String : Var -> string;
  var_Int : Var -> Z;
  var_Int64 : Var -> Z;
  var_Val : Var -> option string
}.

(** Modelled from the spec: [gdb.Core.DoFilter] is not among the sources;
    it is the core's default hook, which hands the statement and its
    arguments back as they are. *)
Definition Core_DoFilter {V : Type} (ctx : Context) (link : option Link)
    (sql : string) (args : list V) : string * list V * option error :=
  (sql, args, None).

End Gdb.

(** [strings.Join]. *)
Fixpoint Join (elems : list string) (sep : string) : string :=
  match elems with
  | [] => EmptyString
  | [x] => x
  | x :: rest => x ++ sep ++ Join rest sep
  end.

(** ** The ClickHouse driver ([contrib/drivers/clickhouse/clickhouse.go]) *)

Module Clickhouse.

Import Regexp Gdb.

Definition errUnsupportedInsertIgnore : error := ErrNamed "unsupported method:InsertIgnore".
Definition errUnsupportedInsertGetId : error := ErrNamed "unsupported method:InsertGetId".
Definition errUnsupportedReplace : error := ErrNamed "unsupported method:Replace".
Definition errUnsupportedBegin : error := ErrNamed "unsupported method:Begin".
Definition errUnsupportedTransaction : error := ErrNamed "unsupported method:Transaction".

(** [\w+[\.]?\w+] *)
Definition tableRef : re :=
  Cat (Plus true CWord) (Cat (Opt (Cls (CChar "."))) (Plus true CWord)).

(** [(?i)UPDATE[\s]+?(\w+[\.]?\w+)[\s]+?SET] *)
Definition updateFilterPattern : re :=
  Cat (Lit true "UPDATE")
    (Cat (Plus false CSpace)
      (Cat (Grp 1 tableRef)
        (Cat (Plus false CSpace) (Lit true "SET")))).

(** [(?i)DELETE[\s]+?FROM[\s]+?(\w+[\.]?\w+)] *)
Definition deleteFilterPattern : re :=
  Cat (Lit true "DELETE")
    (Cat (Plus false CSpace)
      (Cat (Lit true "FROM")
        (Cat (Plus false CSpace) (Grp 1 tableRef)))).

(** [(?i)^UPDATE|DELETE]: the anchor binds to the left branch only. *)
Definition filterTypePattern : re :=
  Alt (Cat Bol (Lit true "UPDATE")) (Lit true "DELETE").

(** [\?] *)
Definition placeholderPattern : re := Cls (CChar "?").

Definition needParsedSqlInCtx : string := "NeedParsedSql".

Definition injectNeedParsedSql (ctx : Context) : Context :=
  match Value ctx needParsedSqlInCtx with
  | Some _ => ctx
  | None => WithValue ctx needParsedSqlInCtx (CtxBool true)
  end.

Definition getNeedParsedSqlFromCtx (ctx : Context) : bool :=
  match Value ctx needParsedSqlInCtx with
  | Some _ => true
  | None => false
  end.

(** The closure of [DoFilter]: [index++] and then ["$" ++ index]. *)
Definition nextMarker (index : nat) (m : found) : nat * string :=
  (S index, "$" ++ Str.dec (S index)).

(** [gregex.ReplaceStringFunc(`\?`, originSql, ...)] with [index] from 0. *)
Definition numberPlaceholders (originSql : string) : string :=
  snd (ReplaceAllFunc placeholderPattern nextMarker 0 originSql).

Definition alterUpdate (st : unit) (m : found) : unit * string :=
  (st, "ALTER TABLE " ++ sub (groups m) 1 ++ " UPDATE").

Definition alterDelete (st : unit) (m : found) : unit * string :=
  (st, "ALTER TABLE " ++ sub (groups m) 1 ++ " DELETE").

(** The second half of [DoFilter], "replace STD SQL to Clickhouse SQL
    grammar": the statement type is read off the trimmed statement and an
    UPDATE or a DELETE is put into its ALTER TABLE form.  The patterns are
    constants that compile, so the error results of [gregex] do not arise. *)
Definition rewriteGrammar (originSql : string) : string :=
  match FindStringSubmatch filterTypePattern 0 (Str.TrimSpace originSql) with
  | [] => originSql
  | mode :: _ =>
      if String.eqb (Str.ToUpper mode) "UPDATE" then
        snd (ReplaceAllFunc updateFilterPattern alterUpdate tt originSql)
      else if String.eqb (Str.ToUpper mode) "DELETE" then
        snd (ReplaceAllFunc deleteFilterPattern alterDelete tt originSql)
      else originSql
  end.

(** [DoFilter]. *)
Definition DoFilter {V : Type} (ctx : Context) (link : option Link)
    (originSql : string) (args : list V) : string * list V * option error :=
  match args with
  | [] => (originSql, args, None)
  | _ :: _ =>
      let originSql := numberPlaceholders originSql in
      if negb (getNeedParsedSqlFromCtx ctx) then (originSql, args, None)
      else (rewriteGrammar originSql, args, None)
  end.

(** *** The type converter *)

(** [time.Time], read as seconds and nanoseconds since January 1, year 1,
    00:00:00 UTC, which is what [IsZero] inspects. *)
Record Time : Type := { sec : Z; nsec : Z }.

Definition Time_IsZero (t : Time) : bool := (sec t =? 0)%Z && (nsec t =? 0)%Z.

(** [gtime.Time] wraps a [time.Time]. *)
Record GTime : Type := { wrapped : Time }.

(** [IsZero] on a pointer to [gtime.Time]: true on the nil pointer. *)
Definition GTime_IsZero (t : option GTime) : bool :=
  match t with
  | None => true
  | Some g => Time_IsZero (wrapped g)
  end.

(** The dynamic types [ConvertValueForField] switches on.  A pointer is
    [None] when nil.  [VValuer] is any other type that implements
    [driver.Valuer], with what its [Value()] returns; [VOther] any type
    that does not. *)
Inductive value : Type :=
| VNil
| VTime (t : Time)
| VTimePtr (p : option Time)
| VGTime (t : GTime)
| VGTimePtr (p : option GTime)
| VUUID (u : string)
| VDecimal (d : string)
| VDecimalPtr (p : option string)
| VValuer (tag : string) (result : value) (err : option error)
| VOther (tag : string).

(** [ConvertValueForField]. *)
Definition ConvertValueForField (ctx : Context) (fieldType : string)
    (fieldValue : value) : value * option error :=
  match fieldValue with
  | VTime itemValue =>
      if Time_IsZero itemValue then (VNil, None) else (fieldValue, None)
  | VUUID _ => (fieldValue, None)
  | VTimePtr itemValue =>
      match itemValue with
      | None => (VNil, None)
      | Some t => if Time_IsZero t then (VNil, None) else (fieldValue, None)
      end
  | VGTime itemValue =>
      if GTime_IsZero (Some itemValue) then (VNil, None)
      else (VTime (wrapped itemValue), None)
  | VGTimePtr itemValue =>
      match itemValue with
      | Some g => (VTime (wrapped g), None)
      | None =>
          if GTime_IsZero itemValue then (VNil, None) else (fieldValue, None)
      end
  | VDecimal _ => (fieldValue, None)
  | VDecimalPtr itemValue =>
      match itemValue with
      | Some d => (VDecimal d, None)
      | None => (VNil, None)
      end
  | VValuer _ convertedValue err =>
      match err with
      | Some e => (VNil, Some e)
      | None => (convertedValue, None)
      end
  | VNil | VOther _ => (fieldValue, None)
  end.

(** *** The schema introspector *)

(** [gutil.GetOrDefaultStr(def, param...)]. *)
Definition GetOrDefaultStr (def : string) (param : list string) : string :=
  match param with
  | p :: _ => if String.eqb p EmptyString then def else p
  | [] => def
  end.

(** [^Nullable\((.*?)\)] *)
Definition nullablePattern : re :=
  Cat Bol (Cat (Lit false "Nullable(") (Cat (Grp 1 (Star false CAny)) (Lit false ")"))).

Section Introspector.

Context {Var : Type} `{!VarOps Var}.

(** [gdb.Record]: column name to value; a missing column reads as the nil
    [*gvar.Var], whose conversions give the zero values. *)
Definition rec_String (m : gmap string Var) (k : string) : string :=
  match m !! k with Some v => var_String v | None => EmptyString end.

Definition rec_Int (m : gmap string Var) (k : string) : Z :=
  match m !! k with Some v => var_Int v | None => 0%Z end.

Definition rec_Val (m : gmap string Var) (k : string) : option string :=
  match m !! k with Some v => var_Val v | None => None end.

(** What [TableFields] asks of the core: a link to a slave node and the
    answer to a query. *)
Record Catalog : Type := {
  GetSchema : string;
  SlaveLink : string -> Link + error;
  DoSelect : Context -> Link -> string -> list (gmap string Var) + error
}.

Definition columns : string :=
  "name,position,default_expression,comment,type,is_in_partition_key,is_in_sorting_key,is_in_primary_key,is_in_sampling_key".

Definition getColumnsSql (table : string) : string :=
  "select " ++ columns ++ " from `system`.columns c where `table` = '" ++ table ++ "'".

(** The body of the loop over [result], for the row [m]. *)
Definition addField (result : list (gmap string Var))
    (fields : gmap string TableField) (m : gmap string Var) : gmap string TableField :=
  let fieldType := rec_String m "type" in
  let fieldsResult := FindStringSubmatch nullablePattern 1 fieldType in
  let '(isNull, fieldType) :=
    match fieldsResult with
    | [_; inner] => (true, inner)
    | _ => (false, fieldType)
    end in
  let position := rec_Int m "position" in
  let first := match result with r0 :: _ => rec_Int r0 "position" | [] => 0%Z end in
  let position := if (first =? 0)%Z then position else (position - 1)%Z in
  <[ rec_String m "name" :=
       {| Index := position;
          Name := rec_String m "name";
          Type_ := fieldType;
          Null := isNull;
          Key := EmptyString;
          Default := rec_Val m "default_expression";
          Comment := rec_String m "comment" |} ]> fields.

Definition collectFields (result : list (gmap string Var)) : gmap string TableField :=
  fold_left (addField result) result ∅.

(** [TableFields]. *)
Definition TableFields (d : Catalog) (ctx : Context) (table : string)
    (schema : list string) : gmap string TableField + error :=
  let usedSchema := GetOrDefaultStr (GetSchema d) schema in
  match SlaveLink d usedSchema with
  | inr err => inr err
  | inl link =>
      match DoSelect d ctx link (getColumnsSql table) with
      | inr err => inr err
      | inl result => inl (collectFields result)
      end
  end.

End Introspector.

(** *** The emulated batch insert *)

Section BatchInsert.

(** [V] are the values of a row ([None] is Go's nil), [R] is [sql.Result]. *)
Context {V R : Type}.

(** The calls [DoInsert] makes on the connection, in the order made. *)
Inductive event : Type :=
| EvBegin
| EvPrepare (query : string)
| EvExec (params : list (option V))
| EvCommit
| EvRollback.

(** The connection as [DoInsert] sees it.  The outcome of a call may depend
    on the calls made before it.  [rangeKeys] is the order in which [range]
    yields the keys of a map, which Go leaves unspecified. *)
Record Conn : Type := {
  beginFails : list event -> option error;
  prepareFails : list event -> string -> option error;
  execOutcome : list event -> list (option V) -> option R * option error;
  rangeKeys : gmap string V -> list string;
  GetChars : string * string;
  QuotePrefixTableName : string -> string
}.

(** What a call of [DoInsert] comes to: a panic, or the calls made and the
    two results. *)
Inductive outcome : Type :=
| Panic (reason : string)
| Return (calls : list event) (result : option R) (err : option error).

(** The inner loop: the values of a row, in the order of [keys]; a key the
    row lacks gives nil. *)
Definition paramsOf (keys : list string) (row : gmap string V) : list (option V) :=
  List.map (fun k => row !! k) keys.

(** The loop over the rows: [stmt.ExecContext] once per row, leaving at the
    first error. *)
Fixpoint execRows (c : Conn) (keys : list string) (rows : list (gmap string V))
    (calls : list event) (result : option R)
    : list event * option R * option error :=
  match rows with
  | [] => (calls, result, None)
  | row :: rows' =>
      let params := paramsOf keys row in
      let '(result', err) := execOutcome c calls params in
      let calls' := (calls ++ [EvExec params])%list in
      match err with
      | Some _ => (calls', result', err)
      | None => execRows c keys rows' calls' result'
      end
  end.

(** The deferred function: commit when [err] is nil, roll back otherwise;
    what either returns is dropped. *)
Definition finish (calls : list event) (err : option error) : list event :=
  match err with
  | None => (calls ++ [EvCommit])%list
  | Some _ => (calls ++ [EvRollback])%list
  end.

Definition insertQuery (c : Conn) (table : string) (keys : list string) : string :=
  let '(charL, charR) := GetChars c in
  let keysStr := charL ++ Join keys (charR ++ "," ++ charL) ++ charR in
  let holderStr := Join (List.map (fun _ => "?") keys) "," in
  "INSERT INTO " ++ QuotePrefixTableName c table ++ "(" ++ keysStr ++ ") VALUES (" ++ holderStr ++ ")".

(** [DoInsert], started after the calls [calls0]. *)
Definition DoInsert (c : Conn) (calls0 : list event) (ctx : Context)
    (link : option Link) (table : string) (list : list (gmap string V)) : outcome :=
  match list with
  | [] => Panic "index out of range [0] with length 0"
  | first :: _ =>
      let keys := rangeKeys c first in
      match beginFails c calls0 with
      | Some e => Return (calls0 ++ [EvBegin])%list None (Some e)
      | None =>
          let calls := (calls0 ++ [EvBegin])%list in
          let query := insertQuery c table keys in
          match prepareFails c calls query with
          | Some e => Return (finish (calls ++ [EvPrepare query])%list (Some e)) None (Some e)
          | None =>
              let '(calls', result, err) :=
                execRows c keys list (calls ++ [EvPrepare query])%list None in
              Return (finish calls' err) result err
          end
      end
  end.

(** The rows a sequence of calls leaves in the table: those executed in a
    transaction count once it commits and are dropped when it rolls back. *)
Fixpoint settle (calls : list event) (pending : option (list (list (option V))))
    (stored : list (list (option V))) : list (list (option V)) :=
  match calls with
  | [] => stored
  | EvBegin :: calls' => settle calls' (Some []) stored
  | EvPrepare _ :: calls' => settle calls' pending stored
  | EvExec params :: calls' =>
      match pending with
      | Some rows => settle calls' (Some (rows ++ [params])%list) stored
      | None => settle calls' None (stored ++ [params])%list
      end
  | EvCommit :: calls' =>
      settle calls' None (stored ++ match pending with Some rows => rows | None => [] end)%list
  | EvRollback :: calls' => settle calls' None stored
  end.

Definition committed (calls : list event) : list (list (option V)) :=
  settle calls None [].

(** The [ExecContext] calls of a batch, one per row. *)
Definition execCalls (keys : list string) (rows : list (gmap string V)) : list event :=
  List.map (fun row => EvExec (paramsOf keys row)) rows.

End BatchInsert.

(** *** The capability gate

    Each method is given the calls made on the connection so far and
    returns them with its results: none of the five adds a call. *)

Section CapabilityGate.

Context {V R D TX : Type}.

Definition InsertIgnore (calls : list (@event V)) (ctx : Context) (table : string)
    (data : D) (batch : list Z) : list (@event V) * (option R * option error) :=
  (calls, (None, Some errUnsupportedInsertIgnore)).

Definition InsertAndGetId (calls : list (@event V)) (ctx : Context) (table : string)
    (data : D) (batch : list Z) : list (@event V) * (Z * option error) :=
  (calls, (0%Z, Some errUnsupportedInsertGetId)).

Definition Replace (calls : list (@event V)) (ctx : Context) (table : string)
    (data : D) (batch : list Z) : list (@event V) * (option R * option error) :=
  (calls, (None, Some errUnsupportedReplace)).

Definition Begin (calls : list (@event V)) (ctx : Context)
    : list (@event V) * (option TX * option error) :=
  (calls, (None, Some errUnsupportedBegin)).

Definition Transaction (calls : list (@event V)) (ctx : Context)
    (f : Context -> TX -> list (@event V) -> list (@event V) * option error)
    : list (@event V) * option error :=
  (calls, Some errUnsupportedTransaction).

End CapabilityGate.

End Clickhouse.

(** ** The PostgreSQL driver ([contrib/drivers/pgsql/pgsql.go]) *)

Module Pgsql.

Import Regexp Gdb.

Definition internalPrimaryKeyInCtx : string := "primary_key".

(** [\?] *)
Definition placeholderPattern : re := Cls (CChar "?").

(** The pattern of the jsonb fix-up: the text [::jsonb], any run of
    characters outside [\w] and [\d] (second group), a dollar sign, one
    digit; the first group is the whole. *)
Definition jsonbPattern : re :=
  Grp 1 (Cat (Lit false "::jsonb")
          (Cat (Grp 2 (Star true CNotWord))
            (Cat (Cls (CChar "$")) (Cls CDigit)))).

(** [ LIMIT (\d+),\s*(\d+)], with its leading blank. *)
Definition limitPattern : re :=
  Cat (Lit false " LIMIT ")
    (Cat (Grp 1 (Plus true CDigit))
      (Cat (Cls (CChar ","))
        (Cat (Star true CSpace) (Grp 2 (Plus true CDigit))))).

Definition limitTemplate : string := " LIMIT $2 OFFSET $1".

Definition nextMarker (index : nat) (m : found) : nat * string :=
  (S index, "$" ++ Str.dec (S index)).

Definition numberPlaceholders (sql : string) : string :=
  snd (ReplaceAllFunc placeholderPattern nextMarker 0 sql).

Definition restoreJsonb (st : unit) (m : found) : unit * string :=
  (st, "::jsonb" ++ sub (groups m) 2 ++ "?").

Definition jsonbFix (sql : string) : string :=
  snd (ReplaceAllFunc jsonbPattern restoreJsonb tt sql).

Definition limitFix (sql : string) : string :=
  ReplaceAllString limitPattern limitTemplate sql.

(** [DoFilter]. *)
Definition DoFilter {V : Type} (ctx : Context) (link : option Link)
    (sql : string) (args : list V) : string * list V * option error :=
  let newSql := numberPlaceholders sql in
  let newSql := jsonbFix newSql in
  let newSql := limitFix newSql in
  Core_DoFilter ctx link newSql args.

(** [pgsql.Result]. *)
Record Result : Type := {
  affected : Z;
  lastInsertId : Z;
  lastInsertIdError : option error
}.

Definition emptyResult : Result :=
  {| affected := 0; lastInsertId := 0; lastInsertIdError := None |}.

Inductive InsertOption : Type :=
| InsertOptionDefault
| InsertOptionReplace
| InsertOptionSave
| InsertOptionIgnore
| InsertOptionOther (n : Z).

Section Execution.

(** [V] are the bound values, [R] the core's own [sql.Result], [Var] is
    [*gvar.Var]. *)
Context {V R Var : Type} `{!VarOps Var}.

(** [gdb.DoCommitInput], without the statement handle (always nil here) and
    the statement type (always [SqlTypeQueryContext] here). *)
Record DoCommitInput : Type := {
  ci_Link : Link;
  ci_Sql : string;
  ci_Args : list V;
  ci_IsTransaction : bool
}.

(** What the driver asks of the embedded [gdb.Core]. *)
Record Core : Type := {
  TXFromCtx : Context -> option Link;
  MasterLink : Link + error;
  ExecTimeout : Z;
  FormatSqlBeforeExecuting : string -> list V -> string * list V;
  Core_DoExec : Context -> Link -> string -> list V -> option R * option error;
  Core_DoInsert : Context -> option Link -> string -> list (gmap string V)
                  -> InsertOption -> option R * option error;
  DoCommit : Context -> DoCommitInput -> list (gmap string Var) + error;
  TableFieldsOf : Context -> string -> gmap string TableField + error;
  rangeFields : gmap string TableField -> list TableField
}.

(** A [sql.Result] is the driver's own [Result] or one made by the core. *)
Inductive sqlResult : Type :=
| OfDriver (r : Result)
| OfCore (r : option R).

(** The part of [DoInsert] under [InsertOptionDefault]: the first field in
    iteration order whose key is ["pri"] goes into the context. *)
Definition withPrimaryKey (ctx : Context) (fields : list TableField) : Context :=
  match List.find (fun f => String.eqb (Key f) "pri") fields with
  | Some pkField => WithValue ctx internalPrimaryKeyInCtx (CtxField pkField)
  | None => ctx
  end.

(** [DoInsert]. *)
Definition DoInsert (d : Core) (ctx : Context) (link : option Link) (table : string)
    (rows : list (gmap string V)) (opt : InsertOption) : option R * option error :=
  match opt with
  | InsertOptionSave =>
      (None, Some (ErrNotSupported "Save operation is not supported by pgsql driver"))
  | InsertOptionReplace =>
      (None, Some (ErrNotSupported "Replace operation is not supported by pgsql driver"))
  | InsertOptionIgnore =>
      (None, Some (ErrNotSupported "Insert ignore operation is not supported by pgsql driver"))
  | InsertOptionDefault =>
      let ctx :=
        match TableFieldsOf d ctx table with
        | inl tableFields => withPrimaryKey ctx (rangeFields d tableFields)
        | inr _ => ctx
        end in
      Core_DoInsert d ctx link table rows opt
  | InsertOptionOther _ => Core_DoInsert d ctx link table rows opt
  end.

(** The transaction checks that open [DoExec]. *)
Definition pickLink (d : Core) (ctx : Context) (link : option Link) : Link + error :=
  match link with
  | None =>
      match TXFromCtx d ctx with
      | Some tx => inl tx
      | None => MasterLink d
      end
  | Some l =>
      if negb (IsTransaction l) then
        match TXFromCtx d ctx with
        | Some tx => inl tx
        | None => inl l
        end
      else inl l
  end.

(** What [DoExec] hands to [DoCommit] for an insert with the primary-key
    field [pk]: the statement with the RETURNING clause appended, after
    [FormatSqlBeforeExecuting] and [DoFilter]. *)
Definition returningInput (d : Core) (ctx : Context) (link : Link)
    (sql : string) (args : list V) (pk : TableField) : DoCommitInput :=
  let formatted := FormatSqlBeforeExecuting d (sql ++ " RETURNING " ++ Name pk) args in
  let filtered := DoFilter ctx (Some link) formatted.1 formatted.2 in
  {| ci_Link := link; ci_Sql := filtered.1.1; ci_Args := filtered.1.2;
     ci_IsTransaction := IsTransaction link |}.

(** [DoExec].  The deadline that [ExecTimeout] puts on the context is not
    part of the model. *)
Definition DoExec (d : Core) (ctx : Context) (link : option Link) (sql : string)
    (args : list V) : option sqlResult * option error :=
  match pickLink d ctx link with
  | inr err => (None, Some err)
  | inl link =>
      let '(isUseCoreDoExec, pkField) :=
        match Value ctx internalPrimaryKeyInCtx with
        | Some (CtxField f) => (false, Some f)
        | Some _ => (true, None)
        | None => (true, None)
        end in
      match pkField with
      | Some pkField =>
          if negb isUseCoreDoExec && negb (String.eqb (Name pkField) EmptyString)
             && Str.contains sql "INSERT INTO" then
            let primaryKey := Name pkField in
            let sql := sql ++ " RETURNING " ++ primaryKey in
            let '(sql, args) := FormatSqlBeforeExecuting d sql args in
            match DoFilter ctx (Some link) sql args with
            | (_, _, Some err) => (None, Some err)
            | (sql, args, None) =>
                match DoCommit d ctx
                        {| ci_Link := link; ci_Sql := sql; ci_Args := args;
                           ci_IsTransaction := IsTransaction link |} with
                | inr err => (None, Some err)
                | inl records =>
                    let affected := List.length records in
                    match last records with
                    | Some lastRecord =>
                        if negb (Str.contains (Type_ pkField) "int") then
                          (Some (OfDriver
                             {| affected := Z.of_nat affected;
                                lastInsertId := 0;
                                lastInsertIdError :=
                                  Some (ErrNotSupported
                                    ("LastInsertId is not supported by primary key type: "
                                     ++ Type_ pkField)) |}), None)
                        else
                          match lastRecord !! primaryKey with
                          | Some v =>
                              (Some (OfDriver
                                 {| affected := Z.of_nat affected;
                                    lastInsertId := var_Int64 v;
                                    lastInsertIdError := None |}), None)
                          | None => (Some (OfDriver emptyResult), None)
                          end
                    | None => (Some (OfDriver emptyResult), None)
                    end
                end
            end
          else
            let '(r, err) := Core_DoExec d ctx link sql args in (Some (OfCore r), err)
      | None =>
          let '(r, err) := Core_DoExec d ctx link sql args in (Some (OfCore r), err)
      end
  end.

End Execution.

End Pgsql.

(** ** The statements the properties speak of

    These follow the specification's words, not the drivers' code. *)

Module Canonical.

(** A canonical statement with [length segs] placeholders: the texts between
    the placeholder markers, none of which has a marker. *)
Fixpoint marked (seg0 : string) (segs : list string) : string :=
  match segs with
  | [] => seg0
  | s :: segs' => seg0 ++ "?" ++ marked s segs'
  end.

(** The same statement with its markers replaced by the positional markers
    [$i], [$(i+1)], ... from left to right. *)
Fixpoint numbered (i : nat) (seg0 : string) (segs : list string) : string :=
  match segs with
  | [] => seg0
  | s :: segs' => seg0 ++ "$" ++ Str.dec i ++ numbered (S i) s segs'
  end.

Definition markerFree (s : string) : Prop := Str.contains s "?" = false.

(** A byte that is neither a digit nor the dollar sign: the bytes a
    positional marker is not made of. *)
Definition plain (a : ascii) : bool :=
  negb (Str.is_digit a) && negb (Ascii.eqb a "$"%char).

(** PostgreSQL's numeric types by their [pg_type] names: smallint, integer,
    bigint, numeric/decimal, real, double precision (the serial types are
    [int4] and [int8] columns). *)
Definition numericTypes : list string :=
  ["int2"; "int4"; "int8"; "numeric"; "float4"; "float8"].

Definition isNumericType (t : string) : bool :=
  existsb (String.eqb t) numericTypes.

End Canonical.

(** ** Concrete inputs *)

Module Examples.

Import Gdb.

(** A [*gvar.Var] holding an integer or a text. *)
Inductive cell : Type :=
| CellInt (z : Z)
| CellText (s : string).

#[export] Instance cell_ops : VarOps cell := {|
  var_String := fun c => match c with CellText s => s | CellInt _ => EmptyString end;
  var_Int := fun c => match c with CellInt z => z | CellText _ => 0%Z end;
  var_Int64 := fun c => match c with CellInt z => z | CellText _ => 0%Z end;
  var_Val := fun c => match c with CellText s => Some s | CellInt _ => None end
|}.

(** A connection on which the row whose only value is 2 cannot be
    executed. *)
Definition demoConn : @Clickhouse.Conn nat nat :=
  {| Clickhouse.beginFails := fun _ => None;
     Clickhouse.prepareFails := fun _ _ => None;
     Clickhouse.execOutcome := fun _ params =>
       if bool_decide (params = [Some 2%nat]) then (None, Some (ErrDriver "row 2"))
       else (Some 1%nat, None);
     Clickhouse.rangeKeys := fun _ => ["id"];
     Clickhouse.GetChars := ("`", "`");
     Clickhouse.QuotePrefixTableName := fun t => t |}.

Definition demoRow (n : nat) : gmap string nat := {[ "id" := n ]}.

(** A row of [system.columns]. *)
Definition column (name : string) (position : Z) (type : string) : gmap string cell :=
  {[ "name" := CellText name; "position" := CellInt position; "type" := CellText type ]}.

(** Two columns, the second one listed first. *)
Definition demoColumns : list (gmap string cell) :=
  [column "b" 2 "Nullable(String)"; column "a" 1 "UInt64"].

Definition demoCatalog : Clickhouse.Catalog :=
  {| Clickhouse.GetSchema := "default";
     Clickhouse.SlaveLink := fun _ => inl {| link_id := 1; IsTransaction := false |};
     Clickhouse.DoSelect := fun _ _ _ => inl demoColumns |}.

(** A core whose connection answers every statement with one row, [id = 7]. *)
Definition demoCore : @Pgsql.Core Z unit cell :=
  {| Pgsql.TXFromCtx := fun _ => None;
     Pgsql.MasterLink := inl {| link_id := 1; IsTransaction := false |};
     Pgsql.ExecTimeout := 0%Z;
     Pgsql.FormatSqlBeforeExecuting := fun sql args => (sql, args);
     Pgsql.Core_DoExec := fun _ _ _ _ => (None, None);
     Pgsql.Core_DoInsert := fun _ _ _ _ _ => (None, None);
     Pgsql.DoCommit := fun _ _ => inl [ {[ "id" := CellInt 7 ]} ];
     Pgsql.TableFieldsOf := fun _ _ => inl ∅;
     Pgsql.rangeFields := fun _ => [] |}.

Definition demoKey (type : string) : TableField :=
  {| Index := 0; Name := "id"; Type_ := type; Null := false; Key := "pri";
     Default := None; Comment := EmptyString |}.

End Examples.

(** ** More of the ClickHouse driver *)

Module ClickhouseOps.

Import Regexp Gdb Clickhouse.

(** *** [DoDelete] and [DoUpdate] *)

Section Writes.

(** [V] are the bound values, [R] is [sql.Result], [D] the data of an
    update. *)
Context {V R D : Type}.




End Writes.

(** *** [ping], [PingMaster] and [PingSlave] *)

(** What [conn.Ping()] returns when it is not nil: a
    [*clickhouse.Exception] with its code and message, or any other
    error. *)
Inductive pingError : Type :=
| PingException (code : Z) (message : string)
| PingFailure (e : error).

(** The error a ping comes to: nil, the text made by [fmt.Errorf], or the
    error of the connection as it is. *)
Inductive pingResult : Type :=
| PingNil
| PingText (text : string)
| PingSame (e : error).

(** [fmt.Sprintf("%d", z)]. *)
Definition decZ (z : Z) : string :=
  if (z <? 0)%Z then "-" ++ Str.dec (Z.to_nat (- z)) else Str.dec (Z.to_nat z).

(** A [*sql.DB], as far as [ping] uses it. *)
Record DB : Type := { Ping : option pingError }.

Definition ping (conn : DB) : pingResult :=
  match Ping conn with
  | Some (PingException code message) => PingText ("[" ++ decZ code ++ "]" ++ message)
  | Some (PingFailure e) => PingSame e
  | None => PingNil
  end.

(** [d.Master()] and [d.Slave()]. *)
Record Nodes : Type := { Master : DB + error; Slave : DB + error }.

Definition PingMaster (d : Nodes) : pingResult :=
  match Master d with
  | inr err => PingSame err
  | inl conn => ping conn
  end.

Definition PingSlave (d : Nodes) : pingResult :=
  match Slave d with
  | inr err => PingSame err
  | inl conn => ping conn
  end.

(** *** [Tables] *)

Section Listing.

Context {Var : Type} `{!VarOps Var}.

Record TablesEnv : Type := {
  ConfigName : string;
  SlaveLinkOf : list string -> Link + error;
  Select : Context -> Link -> string -> list (gmap string Var) + error
}.

Definition tablesQuery (name : string) : string :=
  "select name from `system`.tables where database = '" ++ name ++ "'".

(** [Tables]; the slice grown by [append] from nil is the list of names. *)
Definition Tables (d : TablesEnv) (ctx : Context) (schema : list string)
    : list string * option error :=
  match SlaveLinkOf d schema with
  | inr err => ([], Some err)
  | inl link =>
      match Select d ctx link (tablesQuery (ConfigName d)) with
      | inr err => ([], Some err)
      | inl result => (List.map (fun m => rec_String m "name") result, None)
      end
  end.

End Listing.

End ClickhouseOps.

(** ** More of the PostgreSQL driver *)

Module PgsqlCatalog.

Import Regexp Gdb.

(** The double quote. *)
Definition quoteChar : string := String "034"%char EmptyString.

(** [GetChars]. *)
Definition GetChars : string * string := (quoteChar, quoteChar).

(** [strings.ToLower] on ASCII text. *)
Definition ToLower (s : string) : string := Str.map Str.to_lower_ascii s.

(** *** [CheckLocalTypeForField] *)

Inductive LocalType : Type :=
| LocalTypeInt
| LocalTypeInt64
| LocalTypeIntSlice
| LocalTypeInt64Slice.

(** [(.+?)\((.+)\)] *)
Definition typePattern : re :=
  Cat (Grp 1 (Plus false CAny))
    (Cat (Cls (CChar "("))
      (Cat (Grp 2 (Plus true CAny)) (Cls (CChar ")")))).

Section LocalTypes.

(** [T] is what the core's [CheckLocalTypeForField] returns, [FV] the type
    of field values.  [Trim] is [gstr.Trim], which is outside the
    sources. *)
Context {T FV : Type}.
Variable Trim : string -> string.
Variable Core_CheckLocalTypeForField : Context -> string -> FV -> T.

(** The name the switch of [CheckLocalTypeForField] looks at. *)
Definition typeNameOf (fieldType : string) : string :=
  let typeName :=
    match FindStringSubmatch typePattern 2 fieldType with
    | [_; m1; _] => Trim m1
    | _ => fieldType
    end in
  ToLower typeName.

(** [CheckLocalTypeForField]: the driver's own answer, or the core's. *)
Definition CheckLocalTypeForField (ctx : Context) (fieldType : string)
    (fieldValue : FV) : LocalType + T :=
  let typeName := typeNameOf fieldType in
  if String.eqb typeName "int2" || String.eqb typeName "int4" then inl LocalTypeInt
  else if String.eqb typeName "int8" then inl LocalTypeInt64
  else if String.eqb typeName "_int2" || String.eqb typeName "_int4"
  then inl LocalTypeIntSlice
  else if String.eqb typeName "_int8" then inl LocalTypeInt64Slice
  else inr (Core_CheckLocalTypeForField ctx fieldType fieldValue).

End LocalTypes.

(** *** [ConvertValueForLocal] *)

(** [\(.+\)] *)
Definition bracketPattern : re :=
  Cat (Cls (CChar "(")) (Cat (Plus true CAny) (Cls (CChar ")"))).

(** What [ConvertValueForLocal] returns: an int, an int64, a slice of
    either, or what the core returns. *)
Inductive localValue (T : Type) : Type :=
| LocalInt (n : Z)
| LocalInt64 (n : Z)
| LocalInts (ns : list Z)
| LocalInt64s (ns : list Z)
| LocalOfCore (t : T).

Arguments LocalInt {T} n.
Arguments LocalInt64 {T} n.
Arguments LocalInts {T} ns.
Arguments LocalInt64s {T} ns.
Arguments LocalOfCore {T} t.

Section LocalValues.

(** [T] is what the core's [ConvertValueForLocal] returns, [FV] the type of
    field values.  The conversions of [gconv] and [gstr.ReplaceByMap] with
    the map of the two braces to the two square brackets are outside the
    sources. *)
Context {T FV : Type}.
Variable gconv_String : FV -> string.
Variable gconv_Int gconv_Int64 : string -> Z.
Variable gconv_Ints gconv_Int64s : string -> list Z.
Variable bracesToBrackets : string -> string.
Variable Core_ConvertValueForLocal : Context -> string -> FV -> T.

Definition ConvertValueForLocal (ctx : Context) (fieldType : string)
    (fieldValue : FV) : localValue T :=
  let typeName := ReplaceAllString bracketPattern EmptyString fieldType in
  let typeName := ToLower typeName in
  if String.eqb typeName "int2" || String.eqb typeName "int4"
  then LocalInt (gconv_Int (gconv_String fieldValue))
  else if String.eqb typeName "int8"
  then LocalInt64 (gconv_Int64 (gconv_String fieldValue))
  else if String.eqb typeName "_int2" || String.eqb typeName "_int4"
  then LocalInts (gconv_Ints (bracesToBrackets (gconv_String fieldValue)))
  else if String.eqb typeName "_int8"
  then LocalInt64s (gconv_Int64s (bracesToBrackets (gconv_String fieldValue)))
  else LocalOfCore (Core_ConvertValueForLocal ctx fieldType fieldValue).

End LocalValues.

(** *** [version] *)

(** [PostgreSQL (\d+\.\d+)] *)
Definition versionPattern : re :=
  Cat (Lit false "PostgreSQL ")
    (Grp 1 (Cat (Plus true CDigit) (Cat (Cls (CChar ".")) (Plus true CDigit)))).

Section Catalog.

Context {Var : Type} `{!VarOps Var}.

(** [Bool] of [*gvar.Var], which belongs to [gvar]. *)
Variable var_Bool : Var -> bool.

Definition rec_Bool (m : gmap string Var) (k : string) : bool :=
  match m !! k with Some v => var_Bool v | None => false end.

(** What [version] and [TableFields] ask of the core.  [structureSql] is
    the query for a table, after its white space is normalised. *)
Record Introspection : Type := {
  GetSchema : string;
  SlaveLink : string -> Link + error;
  DoSelect : Context -> Link -> string -> list (gmap string Var) + error;
  structureSql : string -> string
}.

(** [version]. *)
Definition version (d : Introspection) (ctx : Context) (link : Link) : string :=
  match DoSelect d ctx link "SELECT version();" with
  | inr _ => EmptyString
  | inl [] => EmptyString
  | inl (r0 :: _) =>
      match r0 !! "version" with
      | Some v =>
          match FindStringSubmatch versionPattern 1 (var_String v) with
          | _ :: m1 :: _ => m1
          | _ => EmptyString
          end
      | None => EmptyString
      end
  end.

(** *** [TableFields] *)

(** The body of the loop over [result]: the fields so far and [index]. *)
Definition addField (acc : gmap string TableField * Z) (m : gmap string Var)
    : gmap string TableField * Z :=
  let '(fields, index) := acc in
  let name := Clickhouse.rec_String m "field" in
  match fields !! name with
  | Some _ => acc
  | None =>
      (<[ name :=
            {| Index := index;
               Name := name;
               Type_ := Clickhouse.rec_String m "type";
               Null := negb (rec_Bool m "null");
               Key := Clickhouse.rec_String m "key";
               Default := Clickhouse.rec_Val m "default_value";
               Comment := Clickhouse.rec_String m "comment" |} ]> fields,
       (index + 1)%Z)
  end.

Definition collectFields (result : list (gmap string Var)) : gmap string TableField :=
  (fold_left addField result (∅, 0%Z)).1.

(** [TableFields]. *)
Definition TableFields (d : Introspection) (ctx : Context) (table : string)
    (schema : list string) : gmap string TableField + error :=
  let usedSchema := Clickhouse.GetOrDefaultStr (GetSchema d) schema in
  match SlaveLink d usedSchema with
  | inr err => inr err
  | inl link =>
      match DoSelect d ctx link (structureSql d table) with
      | inr err => inr err
      | inl result => inl (collectFields result)
      end
  end.

End Catalog.

End PgsqlCatalog.

(** ** [util/gconv]: conversion to [datatypes.JSON] *)

Module Gconv.

Import Gdb.

(** A byte slice; [None] is the nil slice. *)
Definition bytes : Type := option (list Byte.byte).

(** The dynamic types [iddToDatatypesJSON] switches on; a pointer is [None]
    when nil.  [FromIBytes] is a value of any other type that implements
    [Bytes()], with what that returns; [FromOther] any remaining value, with
    what [json.Marshal] makes of it ([None] when it fails). *)
Inductive from : Type :=
| FromNil
| FromString (s : string)
| FromStringPtr (p : option string)
| FromBytes (b : bytes)
| FromBytesPtr (p : option bytes)
| FromRaw (b : bytes)
| FromRawPtr (p : option bytes)
| FromIBytes (result : bytes)
| FromOther (marshalled : option (list Byte.byte)).

(** [[]byte(s)]. *)
Definition bytesOf (s : string) : bytes := Some (list_byte_of_string s).

(** [iddToDatatypesJSON]. *)
Definition iddToDatatypesJSON (v : from) : bytes :=
  match v with
  | FromNil => None
  | FromString vv => bytesOf vv
  | FromStringPtr vv =>
      match vv with
      | None => None
      | Some s => bytesOf s
      end
  | FromBytes vv => vv
  | FromBytesPtr vv =>
      match vv with
      | None => None
      | Some b => b
      end
  | FromRaw vv => vv
  | FromRawPtr vv =>
      match vv with
      | None => None
      | Some b => b
      end
  | FromIBytes result => result
  | FromOther marshalled =>
      match marshalled with
      | Some b => Some b
      | None => None
      end
  end.

(** What [iddConvertDiy] of the converter returns: the bytes, the map made
    by [c.Map] (which is outside the sources), or the error. *)
Inductive converted (M : Type) : Type :=
| AsJSON (b : bytes)
| AsMap (m : M)
| Unsupported (toTypeName : string).

Arguments AsJSON {M} b.
Arguments AsMap {M} m.
Arguments Unsupported {M} toTypeName.

Definition iddConvertDiy {M : Type} (Map : from -> M) (toTypeName : string)
    (fromValue : from) : converted M :=
  if String.eqb toTypeName "datatypes.JSON" || String.eqb toTypeName "*datatypes.JSON"
  then AsJSON (iddToDatatypesJSON fromValue)
  else if String.eqb toTypeName "datatypes.JSONMap"
          || String.eqb toTypeName "*datatypes.JSONMap"
  then AsMap (Map fromValue)
  else Unsupported toTypeName.

End Gconv.

(** ** Table references

    The names the grammar rewriting is written for, [table] and
    [db.table]: a run of two word characters or more, or two runs of at
    least one word character with a dot between. *)

Module TableNames.

Definition plainName (t : string) : Prop :=
  (2 <= String.length t)%nat /\ Str.forallb Str.is_word t = true.

Definition dottedName (t : string) : Prop :=
  exists db table,
    t = db ++ "." ++ table
    /\ db <> EmptyString /\ table <> EmptyString
    /\ Str.forallb Str.is_word db = true /\ Str.forallb Str.is_word table = true.

Definition tableName (t : string) : Prop := plainName t \/ dottedName t.

End TableNames.

(** ** More concrete inputs *)

Module Fixtures.

Import Gdb Examples.

(** A connection on which no transaction can be begun. *)
Definition noBeginConn : @Clickhouse.Conn nat nat :=
  {| Clickhouse.beginFails := fun _ => Some (ErrDriver "begin");
     Clickhouse.prepareFails := fun _ _ => None;
     Clickhouse.execOutcome := fun _ _ => (Some 1%nat, None);
     Clickhouse.rangeKeys := fun _ => ["id"];
     Clickhouse.GetChars := ("`", "`");
     Clickhouse.QuotePrefixTableName := fun t => t |}.

(** A connection on which no statement can be prepared. *)
Definition noPrepareConn : @Clickhouse.Conn nat nat :=
  {| Clickhouse.beginFails := fun _ => None;
     Clickhouse.prepareFails := fun _ _ => Some (ErrDriver "prepare");
     Clickhouse.execOutcome := fun _ _ => (Some 1%nat, None);
     Clickhouse.rangeKeys := fun _ => ["id"];
     Clickhouse.GetChars := ("`", "`");
     Clickhouse.QuotePrefixTableName := fun t => t |}.

(** A connection that answers the execution of a row with the number of
    calls made before it. *)
Definition countingConn : @Clickhouse.Conn nat nat :=
  {| Clickhouse.beginFails := fun _ => None;
     Clickhouse.prepareFails := fun _ _ => None;
     Clickhouse.execOutcome := fun calls _ => (Some (List.length calls), None);
     Clickhouse.rangeKeys := fun _ => ["id"];
     Clickhouse.GetChars := ("`", "`");
     Clickhouse.QuotePrefixTableName := fun t => t |}.


(** A catalog no node of which can be reached. *)
Definition downCatalog : @Clickhouse.Catalog cell :=
  {| Clickhouse.GetSchema := "default";
     Clickhouse.SlaveLink := fun _ => inr (ErrOperation "no node");
     Clickhouse.DoSelect := fun _ _ _ => inl [] |}.

(** A row of the answer to the structure query of PostgreSQL. *)
Definition attribute (field type key : string) : gmap string cell :=
  {[ "field" := CellText field; "type" := CellText type; "key" := CellText key ]}.

(** [Bool] of a cell: integers other than 0 are true. *)
Definition cell_Bool (c : cell) : bool :=
  match c with CellInt z => negb (z =? 0)%Z | CellText _ => false end.

(** The answer with the row of [id] repeated, as a table with two
    constraints on its first column gives it. *)
Definition pgColumns : list (gmap string cell) :=
  [attribute "id" "int8" "pri"; attribute "id" "int8" EmptyString;
   attribute "name" "varchar" EmptyString].

Definition pgIntrospection : @PgsqlCatalog.Introspection cell :=
  {| PgsqlCatalog.GetSchema := "public";
     PgsqlCatalog.SlaveLink := fun _ => inl {| link_id := 1; IsTransaction := false |};
     PgsqlCatalog.DoSelect := fun _ _ sql =>
       if String.eqb sql "SELECT version();"
       then inl [ {[ "version" := CellText "PostgreSQL 14.5 on x86_64-pc-linux-gnu" ]} ]
       else inl pgColumns;
     PgsqlCatalog.structureSql := fun table => "SELECT a.attname AS field FROM " ++ table |}.

(** A core that knows the key of the table and lets the connection fail. *)
Definition failingCore : @Pgsql.Core Z unit cell :=
  {| Pgsql.TXFromCtx := fun _ => None;
     Pgsql.MasterLink := inl {| link_id := 1; IsTransaction := false |};
     Pgsql.ExecTimeout := 0%Z;
     Pgsql.FormatSqlBeforeExecuting := fun sql args => (sql, args);
     Pgsql.Core_DoExec := fun _ _ _ _ => (Some tt, None);
     Pgsql.Core_DoInsert := fun _ _ _ _ _ => (Some tt, None);
     Pgsql.DoCommit := fun _ _ => inr (ErrDriver "connection lost");
     Pgsql.TableFieldsOf := fun _ _ => inl {[ "id" := demoKey "int8" ]};
     Pgsql.rangeFields := fun fields => (map_to_list fields).*2 |}.

(** A core with no master node. *)
Definition noMasterCore : @Pgsql.Core Z unit cell :=
  {| Pgsql.TXFromCtx := fun _ => None;
     Pgsql.MasterLink := inr (ErrOperation "no master");
     Pgsql.ExecTimeout := 0%Z;
     Pgsql.FormatSqlBeforeExecuting := fun sql args => (sql, args);
     Pgsql.Core_DoExec := fun _ _ _ _ => (Some tt, None);
     Pgsql.Core_DoInsert := fun _ _ _ _ _ => (Some tt, None);
     Pgsql.DoCommit := fun _ _ => inl [];
     Pgsql.TableFieldsOf := fun _ _ => inr (ErrOperation "no master");
     Pgsql.rangeFields := fun _ => [] |}.

End Fixtures.

(** ** The emulated batch insert *)

Module BatchInsertFacts.
Import Gdb Clickhouse.

Section Facts.
Context {V R : Type}.
Implicit Types (c : @Conn V R) (calls : list (@event V)) (rows : list (gmap string V)).

Lemma settle_begin calls tail pending stored :
  settle (calls ++ EvBegin :: tail)%list pending stored
  = settle tail (Some []) (settle calls pending stored).
Proof.
  revert pending stored.
  induction calls as [|e calls IH]; intros pending stored; simpl.
  - reflexivity.
  - destruct e; try destruct pending; apply IH.
Qed.

Lemma settle_execs keys rows tail pend stored :
  settle (execCalls keys rows ++ tail)%list (Some pend) stored
  = settle tail (Some (pend ++ List.map (paramsOf keys) rows)%list) stored.
Proof.
  revert pend. induction rows as [|row rows IH]; intros pend; simpl.
  - by rewrite app_nil_r.
  - rewrite IH. by rewrite <- app_assoc.
Qed.

Lemma execRows_all c keys rows calls result :
  (forall i row, rows !! i = Some row ->
     snd (execOutcome c (calls ++ execCalls keys (take i rows))%list (paramsOf keys row)) = None) ->
  exists result',
    execRows c keys rows calls result = ((calls ++ execCalls keys rows)%list, result', None)
    /\ (rows = [] -> result' = result)
    /\ (forall row, last rows = Some row ->
          result' = fst (execOutcome c (calls ++ execCalls keys (take (pred (List.length rows)) rows))%list
                           (paramsOf keys row))).
Proof.
  revert calls result.
  induction rows as [|row rows IH]; intros calls result Hok; simpl.
  - exists result. rewrite app_nil_r. by repeat split.
  - pose proof (Hok 0%nat row eq_refl) as H0. simpl in H0. rewrite app_nil_r in H0.
    destruct (execOutcome c calls (paramsOf keys row)) as [r0 e0] eqn:E0.
    simpl in H0. subst e0.
    destruct (IH (calls ++ [EvExec (paramsOf keys row)])%list r0) as (r' & Hr & Hnil & Hlast).
    { intros i row' Hi. specialize (Hok (S i) row' Hi). simpl in Hok.
      by rewrite <- app_assoc. }
    exists r'. rewrite Hr. rewrite <- app_assoc. simpl. split; [done|]. split; [done|].
    intros row' Hl. destruct rows as [|row2 rows].
    + simpl in Hl. inversion Hl; subst. simpl. rewrite app_nil_r, E0. simpl. by apply Hnil.
    + rewrite (Hlast row'); [|exact Hl]. simpl. by rewrite <- app_assoc.
Qed.

Lemma execRows_first_failure c keys rows calls result j row e :
  rows !! j = Some row ->
  (forall i row', (i < j)%nat -> rows !! i = Some row' ->
     snd (execOutcome c (calls ++ execCalls keys (take i rows))%list (paramsOf keys row')) = None) ->
  snd (execOutcome c (calls ++ execCalls keys (take j rows))%list (paramsOf keys row)) = Some e ->
  execRows c keys rows calls result
  = ((calls ++ execCalls keys (take (S j) rows))%list,
     fst (execOutcome c (calls ++ execCalls keys (take j rows))%list (paramsOf keys row)),
     Some e).
Proof.
  revert calls result j.
  induction rows as [|row0 rows IH]; intros calls result j Hj Hbefore Hfail.
  - done.
  - destruct j as [|j].
    + simpl in Hj. inversion Hj; subst row0. simpl in *. rewrite app_nil_r in *.
        destruct (execOutcome c calls (paramsOf keys row)) as [r0 e0]. simpl in *. subst e0.
      done.
    + simpl in Hj. simpl.
      pose proof (Hbefore 0%nat row0 ltac:(lia) eq_refl) as H0. simpl in H0. rewrite app_nil_r in H0.
      destruct (execOutcome c calls (paramsOf keys row0)) as [r0 e0]. simpl in H0. subst e0.
      rewrite (IH _ r0 j Hj).
      * simpl. by rewrite <- !app_assoc.
      * intros i row' Hi Hrow'. specialize (Hbefore (S i) row' ltac:(lia) Hrow'). simpl in Hbefore.
        by rewrite <- app_assoc.
      * simpl in Hfail. by rewrite <- app_assoc.
Qed.

(** C3.  A batch of at least one row, on a connection where Begin and
    Prepare succeed: [DoInsert] begins one transaction and prepares one
    insert statement in it, then executes the statement once per row in
    the order of the list.  If every execution succeeds the transaction is
    committed and the rows are those the table gains.  If the execution of
    row [j] is the first to fail, its error is returned, no later row is
    executed, the transaction is rolled back and the table gains no row. *)
Theorem DoInsert_prepares_once_and_fails_fast c calls0 ctx link table first rest :
  let rows := first :: rest in
  let keys := rangeKeys c first in
  let query := insertQuery c table keys in
  let opened := (calls0 ++ [EvBegin; EvPrepare query])%list in
  beginFails c calls0 = None ->
  prepareFails c (calls0 ++ [EvBegin])%list query = None ->
  ((forall i row, rows !! i = Some row ->
      snd (execOutcome c (opened ++ execCalls keys (take i rows))%list
             (paramsOf keys row)) = None) ->
   exists result,
     DoInsert c calls0 ctx link table rows
     = Return (opened ++ execCalls keys rows ++ [EvCommit])%list result None
     /\ committed (opened ++ execCalls keys rows ++ [EvCommit])%list
        = (committed calls0 ++ List.map (paramsOf keys) rows)%list)
  /\
  (forall j row e,
     rows !! j = Some row ->
     (forall i row', (i < j)%nat -> rows !! i = Some row' ->
        snd (execOutcome c (opened ++ execCalls keys (take i rows))%list
               (paramsOf keys row')) = None) ->
     snd (execOutcome c (opened ++ execCalls keys (take j rows))%list
            (paramsOf keys row)) = Some e ->
     DoInsert c calls0 ctx link table rows
     = Return (opened ++ execCalls keys (take (S j) rows) ++ [EvRollback])%list
         (fst (execOutcome c (opened ++ execCalls keys (take j rows))%list
                 (paramsOf keys row)))
         (Some e)
     /\ committed (opened ++ execCalls keys (take (S j) rows) ++ [EvRollback])%list
        = committed calls0).
Proof.
  intros rows keys query opened Hbegin Hprep.
  assert (Hopen : forall tail,
            committed (opened ++ tail)%list = settle tail (Some []) (committed calls0)).
  { intros tail. unfold committed, opened.
    change (calls0 ++ [EvBegin; EvPrepare query])%list
      with (calls0 ++ EvBegin :: [EvPrepare query])%list.
    rewrite <- app_assoc. simpl. by rewrite settle_begin. }
  split.
  - intros Hok.
    destruct (execRows_all c keys rows opened None Hok) as (result & Hrun & _ & _).
    exists result. split.
    + subst rows. unfold DoInsert. fold keys query. rewrite Hbegin, Hprep.
      replace ((calls0 ++ [EvBegin]) ++ [EvPrepare query])%list with opened
        by (unfold opened; by rewrite <- app_assoc).
      rewrite Hrun. simpl. by rewrite <- app_assoc.
    + rewrite Hopen, settle_execs. simpl. done.
  - intros j row e Hj Hbefore Hfail. split.
    + subst rows. unfold DoInsert. fold keys query. rewrite Hbegin, Hprep.
      replace ((calls0 ++ [EvBegin]) ++ [EvPrepare query])%list with opened
        by (unfold opened; by rewrite <- app_assoc).
      rewrite (execRows_first_failure c keys _ opened None j row e Hj Hbefore Hfail).
      simpl. by rewrite <- app_assoc.
    + rewrite Hopen, settle_execs. simpl. done.
Qed.

End Facts.

Import Examples.

Lemma DoInsert_three_rows_second_fails :
  DoInsert demoConn [] [] None "t" [demoRow 1; demoRow 2; demoRow 3]
  = Return [EvBegin; EvPrepare "INSERT INTO t(`id`) VALUES (?)";
            EvExec [Some 1%nat]; EvExec [Some 2%nat]; EvRollback]
      None (Some (ErrDriver "row 2"))
  /\ committed [EvBegin; EvPrepare "INSERT INTO t(`id`) VALUES (?)";
                EvExec [Some 1%nat]; EvExec [Some 2%nat]; EvRollback]
     = ([] : list (list (option nat))).
Proof.
  pose proof (DoInsert_prepares_once_and_fails_fast demoConn [] [] None "t"
                (demoRow 1) [demoRow 2; demoRow 3] eq_refl eq_refl) as [_ H].
  specialize (H 1%nat (demoRow 2) (ErrDriver "row 2") eq_refl).
  apply H.
  - intros i row' Hi Hrow. destruct i; [|lia]. inversion Hrow; subst. reflexivity.
  - reflexivity.
Defined.

End BatchInsertFacts.

(** ** The capability gate and the type converter *)

Module ConverterProps.
Import Gdb Clickhouse.

(** C4.  Each of [InsertIgnore], [InsertAndGetId], [Replace], [Begin] and
    [Transaction] hands back the calls made on the connection so far as
    they are (it makes none), the zero result and its own named error; the
    error is the same whatever the arguments are, and the function passed
    to [Transaction] is not run. *)
Theorem unsupported_methods_return_fixed_error (V R D TX : Type)
    (calls : list (@event V)) (ctx ctx' : Context) (table table' : string)
    (data data' : D) (batch batch' : list Z)
    (f f' : Context -> TX -> list (@event V) -> list (@event V) * option error) :
  InsertIgnore (R := R) calls ctx table data batch
  = (calls, (None, Some (ErrNamed "unsupported method:InsertIgnore")))
  /\ InsertAndGetId calls ctx table data batch
     = (calls, (0%Z, Some (ErrNamed "unsupported method:InsertGetId")))
  /\ Replace (R := R) calls ctx table data batch
     = (calls, (None, Some (ErrNamed "unsupported method:Replace")))
  /\ Begin (TX := TX) calls ctx
     = (calls, (None, Some (ErrNamed "unsupported method:Begin")))
  /\ Transaction calls ctx f
     = (calls, Some (ErrNamed "unsupported method:Transaction"))
  /\ InsertIgnore (R := R) calls ctx table data batch
     = InsertIgnore calls ctx' table' data' batch'
  /\ InsertAndGetId calls ctx table data batch
     = InsertAndGetId calls ctx' table' data' batch'
  /\ Replace (R := R) calls ctx table data batch
     = Replace calls ctx' table' data' batch'
  /\ Begin (TX := TX) calls ctx = Begin calls ctx'
  /\ Transaction calls ctx f = Transaction calls ctx' f'.
Proof. repeat split. Qed.

(** C5, where the code departs from it.  A zero [time.Time], a nil or zero
    pointer to one and a zero [gtime.Time] are converted to nil; a non-nil
    pointer to a zero [gtime.Time] is converted to the zero [time.Time] it
    wraps: the case returns the wrapped time before it looks at [IsZero]. *)
Theorem ConvertValueForField_zero_gtime_pointer (ctx : Context) (fieldType : string) :
  let zero := {| sec := 0; nsec := 0 |} in
  ConvertValueForField ctx fieldType (VTime zero) = (VNil, None)
  /\ ConvertValueForField ctx fieldType (VTimePtr None) = (VNil, None)
  /\ ConvertValueForField ctx fieldType (VTimePtr (Some zero)) = (VNil, None)
  /\ ConvertValueForField ctx fieldType (VGTime {| wrapped := zero |}) = (VNil, None)
  /\ ConvertValueForField ctx fieldType (VGTimePtr None) = (VNil, None)
  /\ GTime_IsZero (Some {| wrapped := zero |}) = true
  /\ ConvertValueForField ctx fieldType (VGTimePtr (Some {| wrapped := zero |}))
     = (VTime zero, None).
Proof. repeat split. Qed.

End ConverterProps.

#[local] Arguments String.append !_ _ / : simpl nomatch.

(** * Properties

    ** Byte strings *)

Module StrFacts.
Import Str.

Lemma app_assoc (a b c : string) : (a ++ b) ++ c = a ++ (b ++ c).
Proof. induction a as [|x a IH]; simpl; [reflexivity | by rewrite IH]. Qed.

Lemma app_empty_r (a : string) : a ++ EmptyString = a.
Proof. induction a as [|x a IH]; simpl; [reflexivity | by rewrite IH]. Qed.

Lemma eqb_char_refl (a : ascii) : Ascii.eqb a a = true.
Proof. apply Ascii.eqb_refl. Qed.

Lemma strip_prefix_app (p r : string) : strip_prefix p (p ++ r) = Some r.
Proof. induction p as [|a p IH]; simpl; [reflexivity | by rewrite Ascii.eqb_refl]. Qed.

Lemma strip_prefix_inv (p s r : string) : strip_prefix p s = Some r -> s = p ++ r.
Proof.
  revert s. induction p as [|a p IH]; intros s H; simpl in *.
  - by inversion H.
  - destruct s as [|b s]; [done|].
    destruct (Ascii.eqb a b) eqn:E; [|done].
    apply Ascii.eqb_eq in E. subst b. by rewrite (IH s H).
Qed.

(** A prefix found in [x ++ y] that is no longer than [x] is found in [x]. *)
Lemma strip_prefix_within (p x y r : string) :
  strip_prefix p (x ++ y) = Some r ->
  (String.length p <= String.length x)%nat ->
  exists r', strip_prefix p x = Some r'.
Proof.
  revert x. induction p as [|a p IH]; intros x H Hlen; simpl in *.
  - by eexists.
  - destruct x as [|b x]; simpl in *; [lia|].
    destruct (Ascii.eqb a b); [|done]. apply IH; [done | lia].
Qed.

Lemma strip_prefix_extend (p x y r : string) :
  strip_prefix p x = Some r -> strip_prefix p (x ++ y) = Some (r ++ y).
Proof.
  revert x. induction p as [|a p IH]; intros x H; simpl in *.
  - by inversion H.
  - destruct x as [|b x]; [done|]. simpl.
    destruct (Ascii.eqb a b); [by apply IH | done].
Qed.

Lemma contains_cons_false (a : ascii) (s sub : string) :
  contains (String a s) sub = false ->
  strip_prefix sub (String a s) = None /\ contains s sub = false.
Proof.
  cbn [contains]. destruct (strip_prefix sub (String a s)); [done | by intros ->].
Qed.

Lemma contains_head_false (s sub : string) :
  contains s sub = false -> strip_prefix sub s = None.
Proof.
  destruct s as [|a s].
  - simpl. by destruct (strip_prefix sub EmptyString).
  - intros H. by apply contains_cons_false in H as [? _].
Qed.

Lemma contains_app_l (x y sub : string) :
  contains x sub = true -> contains (x ++ y) sub = true.
Proof.
  induction x as [|a x IH]; intros H.
  - simpl in H. destruct (strip_prefix sub EmptyString) eqn:E; [|done].
    destruct sub; [|done]. by destruct y.
  - change (String a x ++ y) with (String a (x ++ y)).
    cbn [contains] in *.
    destruct (strip_prefix sub (String a x)) eqn:E.
    + pose proof (strip_prefix_extend _ _ y _ E) as E'.
      change (String a x ++ y) with (String a (x ++ y)) in E'. by rewrite E'.
    + destruct (strip_prefix sub (String a (x ++ y))); [done | by apply IH].
Qed.

Lemma contains_app_r (x y sub : string) :
  contains y sub = true -> contains (x ++ y) sub = true.
Proof.
  intros H. induction x as [|a x IH]; [done|].
  change (String a x ++ y) with (String a (x ++ y)). cbn [contains].
  by destruct (strip_prefix sub (String a (x ++ y))).
Qed.

(** No occurrence of [sub] crosses a byte that [sub] does not have. *)
Lemma strip_prefix_stops (p x y r : string) (c : ascii) :
  forallb (fun a => negb (Ascii.eqb a c)) p = true ->
  strip_prefix p (x ++ String c y) = Some r ->
  exists r', strip_prefix p x = Some r'.
Proof.
  revert x. induction p as [|a p IH]; intros x Hp H; simpl in *.
  - by eexists.
  - apply andb_prop in Hp as [Ha Hp].
    destruct x as [|b x]; simpl in *.
    + destruct (Ascii.eqb a c); done.
    + destruct (Ascii.eqb a b); [by apply IH | done].
Qed.

Lemma contains_split (sub x y : string) (c : ascii) :
  sub <> EmptyString ->
  forallb (fun a => negb (Ascii.eqb a c)) sub = true ->
  contains (x ++ String c y) sub = true ->
  contains x sub = true \/ contains y sub = true.
Proof.
  intros Hne Hsub. induction x as [|a x IH]; intros H.
  - simpl in H. destruct sub as [|b sub]; [done|].
    simpl in Hsub. apply andb_prop in Hsub as [Hb _].
    simpl in H. rewrite (negb_true_iff _) in Hb. rewrite Hb in H. by right.
  - change (String a x ++ String c y) with (String a (x ++ String c y)) in H.
    cbn [contains] in H.
    destruct (strip_prefix sub (String a (x ++ String c y))) eqn:E.
    + destruct (strip_prefix_stops sub (String a x) y s c Hsub E) as [r' Hr'].
      left. cbn [contains]. by rewrite Hr'.
    + destruct (IH H) as [Hx|Hy]; [left | by right].
      cbn [contains]. by destruct (strip_prefix sub (String a x)).
Qed.

Lemma length_app (a b : string) :
  String.length (a ++ b) = (String.length a + String.length b)%nat.
Proof. induction a as [|x a IH]; simpl; [reflexivity | by rewrite IH]. Qed.

End StrFacts.

(** ** The matcher *)

Module RegexpFacts.
Import Str StrFacts Regexp.

Lemma lit_exact (p s : string) :
  lit false p s
  = match strip_prefix p s with Some r => Some (p, r) | None => None end.
Proof.
  revert s. induction p as [|a p IH]; intros s; simpl; [reflexivity|].
  destruct s as [|b s]; [reflexivity|].
  destruct (Ascii.eqb a b) eqn:E; [|reflexivity].
  apply Ascii.eqb_eq in E. subst b. rewrite IH.
  by destruct (strip_prefix p s).
Qed.

Section Replace.

Context {St : Type} (r : re) (f : St -> found -> St * string).

Lemma replace_go_skip (st : St) (w rest : string) :
  replace_go r f st false (String.length w) (w ++ rest)
  = replace_go r f st false 0 rest.
Proof.
  induction w as [|a w IH]; simpl; [|exact IH].
  by destruct rest.
Qed.

Lemma replace_go_miss (st : St) (bol : bool) (a : ascii) (s : string) :
  match_at r bol (String a s) = None ->
  replace_go r f st bol 0 (String a s)
  = (let (st2, tl) := replace_go r f st false 0 s in (st2, String a tl)).
Proof. intros H. cbn [replace_go]. by rewrite H. Qed.

Lemma replace_go_match (st : St) (bol : bool) (b : ascii) (w rest : string) (cs : caps) :
  match_at r bol (String b w ++ rest) = Some (Found (String b w) cs rest) ->
  replace_go r f st bol 0 (String b w ++ rest)
  = (let (st1, out) := f st (Found (String b w) cs rest) in
     let (st2, tl) := replace_go r f st1 false 0 rest in
     (st2, out ++ tl)).
Proof.
  intros H. change (String b w ++ rest) with (String b (w ++ rest)) in *.
  cbn [replace_go]. rewrite H.
  destruct (f st (Found (String b w) cs rest)) as [st1 out].
  by rewrite replace_go_skip.
Qed.

(** A pattern that opens with the literal [l] leaves a text without [l]
    as it is. *)
Lemma replace_go_absent (l : string) (st : St) (bol : bool) (s : string) :
  (forall bol' t, strip_prefix l t = None -> match_at r bol' t = None) ->
  contains s l = false ->
  replace_go r f st bol 0 s = (st, s).
Proof.
  intros Hopen. revert bol. induction s as [|a s IH]; intros bol H; [reflexivity|].
  apply contains_cons_false in H as [Hhead Htail].
  rewrite replace_go_miss by (by apply Hopen).
  by rewrite IH.
Qed.

End Replace.

Section Star.

Context {A : Type}.



(** A greedy star takes the whole run when what follows accepts it. *)
Lemma star_greedy_run (c : cls) (w rest : string)
    (k : string -> string -> option A) (x : A) :
  Str.forallb (in_cls c) w = true ->
  starts_in c rest = false ->
  k w rest = Some x ->
  star true c (w ++ rest) k = Some x.
Proof.
  revert k. induction w as [|a w IH]; intros k Hw Hrest Hk; simpl in *.
  - destruct rest as [|b rest]; [done|]. simpl in *. by rewrite Hrest.
  - apply andb_prop in Hw as [Ha Hw]. rewrite Ha.
    by rewrite (IH (fun w0 rest0 => k (String a w0) rest0)).
Qed.

(** A lazy star stops at once when what follows accepts that. *)
Lemma star_lazy_stop (c : cls) (s : string)
    (k : string -> string -> option A) (x : A) :
  k EmptyString s = Some x -> star false c s k = Some x.
Proof.
  intros Hk. destruct s as [|a s]; simpl; [done|].
  destruct (in_cls c a); [|done]. by rewrite Hk.
Qed.

End Star.

End RegexpFacts.

(** ** Numbering the markers *)

Module PlaceholderFacts.
Import Str StrFacts Regexp RegexpFacts Gdb Canonical.

Section Numbering.

Context {St : Type} (f : St -> found -> St * string).

Lemma match_at_char (c : ascii) (bol : bool) (s : string) :
  match_at (Cls (CChar c)) bol s
  = match strip_prefix (String c EmptyString) s with
    | Some rest => Some (Found (String c EmptyString) [] rest)
    | None => None
    end.
Proof.
  unfold match_at. destruct s as [|a s]; simpl; [reflexivity|].
  destruct (Ascii.eqb c a) eqn:E; [|reflexivity].
  apply Ascii.eqb_eq in E. by subst a.
Qed.

Lemma replace_char_bol (c : ascii) (st : St) (s : string) :
  replace_go (Cls (CChar c)) f st true 0 s = replace_go (Cls (CChar c)) f st false 0 s.
Proof. destruct s as [|a s]; [reflexivity|]. cbn [replace_go]. by rewrite !match_at_char. Qed.

(** Text without the byte is copied. *)
Lemma replace_char_copy (c : ascii) (st : St) (pre rest : string) :
  contains pre (String c EmptyString) = false ->
  replace_go (Cls (CChar c)) f st false 0 (pre ++ rest)
  = (let (st', out) := replace_go (Cls (CChar c)) f st false 0 rest in (st', pre ++ out)).
Proof.
  induction pre as [|a pre IH]; intros H.
  - simpl. by destruct (replace_go _ _ _ _ _ rest).
  - apply contains_cons_false in H as [Hhead Htail].
    change (String a pre ++ rest) with (String a (pre ++ rest)).
    rewrite replace_go_miss.
    + rewrite (IH Htail). by destruct (replace_go _ _ _ _ _ rest).
    + rewrite match_at_char.
      simpl in *. destruct (Ascii.eqb c a); [done | reflexivity].
Qed.

(** The byte itself is handed to the callback. *)
Lemma replace_char_hit (c : ascii) (st : St) (rest : string) :
  replace_go (Cls (CChar c)) f st false 0 (String c rest)
  = (let (st1, out) := f st (Found (String c EmptyString) [] rest) in
     let (st2, tl) := replace_go (Cls (CChar c)) f st1 false 0 rest in
     (st2, out ++ tl)).
Proof.
  apply (replace_go_match (Cls (CChar c)) f st false c EmptyString rest []).
  rewrite match_at_char. simpl. by rewrite Ascii.eqb_refl.
Qed.

End Numbering.

Lemma number_marked (i : nat) (seg0 : string) (segs : list string) :
  Forall markerFree (seg0 :: segs) ->
  replace_go (Cls (CChar "?")) Clickhouse.nextMarker i false 0 (marked seg0 segs)
  = ((i + List.length segs)%nat, numbered (S i) seg0 segs).
Proof.
  revert i seg0. induction segs as [|s segs IH]; intros i seg0 Hfree.
  - simpl. inversion Hfree as [|? ? H0 _]; subst.
    rewrite <- (app_empty_r seg0) at 1.
    rewrite replace_char_copy by exact H0. simpl.
    rewrite app_empty_r. f_equal. lia.
  - inversion Hfree as [|? ? H0 Hrest]; subst.
    cbn [marked numbered].
    rewrite replace_char_copy by exact H0.
    change ("?" ++ marked s segs) with (String "?" (marked s segs)).
    rewrite replace_char_hit. cbn [Clickhouse.nextMarker].
    rewrite (IH (S i) s Hrest). cbn [List.length].
    rewrite StrFacts.app_assoc. f_equal. lia.
Qed.

Lemma numberPlaceholders_marked (seg0 : string) (segs : list string) :
  Forall markerFree (seg0 :: segs) ->
  Clickhouse.numberPlaceholders (marked seg0 segs) = numbered 1 seg0 segs
  /\ Pgsql.numberPlaceholders (marked seg0 segs) = numbered 1 seg0 segs.
Proof.
  intros H. unfold Clickhouse.numberPlaceholders, Pgsql.numberPlaceholders, ReplaceAllFunc.
  unfold Clickhouse.placeholderPattern, Pgsql.placeholderPattern.
  rewrite !replace_char_bol.
  change Pgsql.nextMarker with Clickhouse.nextMarker.
  by rewrite (number_marked 0 seg0 segs H).
Qed.

End PlaceholderFacts.

(** ** What numbering leaves alone *)

Module NumberedFacts.
Import Str StrFacts Regexp RegexpFacts Gdb Canonical PlaceholderFacts.

Lemma forallb_weaken (p q : ascii -> bool) (s : string) :
  (forall a, p a = true -> q a = true) ->
  Str.forallb p s = true -> Str.forallb q s = true.
Proof.
  intros Hpq. induction s as [|a s IH]; simpl; [done|].
  intros [Ha Hs]%andb_prop. by rewrite (Hpq a Ha), IH.
Qed.

Lemma string_of_uint_digits (d : Decimal.uint) :
  Str.forallb is_digit (NilEmpty.string_of_uint d) = true.
Proof. induction d; simpl; try done; exact IHd. Qed.

Lemma dec_digits (n : nat) : Str.forallb is_digit (dec n) = true.
Proof.
  unfold dec, NilZero.string_of_uint.
  destruct (Nat.to_uint n) eqn:E; try done; rewrite <- E; apply string_of_uint_digits.
Qed.

Lemma plain_not (sub : string) (c : ascii) :
  Str.forallb plain sub = true ->
  is_digit c = true \/ c = "$"%char ->
  Str.forallb (fun a => negb (Ascii.eqb a c)) sub = true.
Proof.
  intros Hsub Hc. apply (forallb_weaken plain); [|done].
  intros a [Hd Hdollar]%andb_prop.
  destruct (Ascii.eqb a c) eqn:E; [|done].
  apply Ascii.eqb_eq in E. subst a.
  destruct Hc as [Hc | ->]; [by rewrite Hc in Hd | done].
Qed.

Lemma contains_empty (sub : string) : sub <> EmptyString -> contains EmptyString sub = false.
Proof. by destruct sub. Qed.

Lemma contains_after_digits (sub d x : string) :
  sub <> EmptyString -> Str.forallb plain sub = true -> Str.forallb is_digit d = true ->
  contains (d ++ x) sub = true -> contains x sub = true.
Proof.
  intros Hne Hsub. induction d as [|c d IH]; intros Hd H; [done|].
  simpl in Hd. apply andb_prop in Hd as [Hc Hd].
  apply IH; [done|].
  change (String c d ++ x) with (EmptyString ++ String c (d ++ x)) in H.
  apply contains_split in H as [H|H]; [|done| done |].
  - by rewrite contains_empty in H.
  - apply plain_not; [done | by left].
Qed.

(** Numbering the markers brings in no occurrence of a plain text. *)
Lemma contains_numbered (sub : string) (i : nat) (seg0 : string) (segs : list string) :
  sub <> EmptyString -> Str.forallb plain sub = true ->
  contains (numbered i seg0 segs) sub = true ->
  contains (marked seg0 segs) sub = true.
Proof.
  intros Hne Hsub. revert i seg0.
  induction segs as [|s segs IH]; intros i seg0 H; [done|].
  cbn [numbered marked] in *.
  change ("$" ++ dec i ++ numbered (S i) s segs)
    with (String "$" (dec i ++ numbered (S i) s segs)) in H.
  apply contains_split in H as [H|H]; [| |done|].
  - by apply contains_app_l.
  - apply contains_app_r. apply (contains_app_r "?").
    apply (IH (S i)). apply (contains_after_digits sub (dec i)); auto using dec_digits.
  - apply plain_not; [done | by right].
Qed.

Lemma jsonb_opens (bol : bool) (t : string) :
  strip_prefix "::jsonb" t = None -> match_at Pgsql.jsonbPattern bol t = None.
Proof.
  intros H. unfold match_at, Pgsql.jsonbPattern. cbn [exec].
  by rewrite lit_exact, H.
Qed.

Lemma jsonbFix_absent (s : string) :
  contains s "::jsonb" = false -> Pgsql.jsonbFix s = s.
Proof.
  intros H. unfold Pgsql.jsonbFix, ReplaceAllFunc.
  by rewrite (replace_go_absent _ _ "::jsonb" tt true s jsonb_opens H).
Qed.

Lemma limit_opens (bol : bool) (t : string) :
  strip_prefix " LIMIT " t = None -> match_at Pgsql.limitPattern bol t = None.
Proof.
  intros H. unfold match_at, Pgsql.limitPattern. cbn [exec].
  by rewrite lit_exact, H.
Qed.

Lemma limitFix_absent (s : string) :
  contains s " LIMIT " = false -> Pgsql.limitFix s = s.
Proof.
  intros H. unfold Pgsql.limitFix, ReplaceAllString, ReplaceAllFunc.
  by rewrite (replace_go_absent _ _ " LIMIT " tt true s limit_opens H).
Qed.

End NumberedFacts.

(** ** The pagination clause *)

Module LimitFacts.
Import Str StrFacts Regexp RegexpFacts Gdb Canonical PlaceholderFacts NumberedFacts.

Lemma digit_not_space (c : ascii) : is_digit c = true -> is_space c = false.
Proof. destruct c as [[] [] [] [] [] [] [] []]; by vm_compute. Qed.

Lemma limit_bol (s : string) :
  match_at Pgsql.limitPattern true s = match_at Pgsql.limitPattern false s.
Proof. reflexivity. Qed.

Lemma limit_match (a b ws post : string) :
  a <> EmptyString -> Str.forallb is_digit a = true ->
  b <> EmptyString -> Str.forallb is_digit b = true ->
  Str.forallb is_space ws = true ->
  starts_in CDigit post = false ->
  match_at Pgsql.limitPattern false (" LIMIT " ++ a ++ "," ++ ws ++ b ++ post)
  = Some (Found (" LIMIT " ++ a ++ "," ++ ws ++ b) [(2%nat, b); (1%nat, a)] post).
Proof.
  intros Ha Hda Hb Hdb Hws Hpost.
  destruct a as [|a0 a]; [done|]. destruct b as [|b0 b]; [done|].
  simpl in Hda, Hdb. apply andb_prop in Hda as [Ha0 Hda]. apply andb_prop in Hdb as [Hb0 Hdb].
  unfold match_at, Pgsql.limitPattern, Plus. cbn [exec].
  rewrite lit_exact, strip_prefix_app.
  change (String a0 a ++ "," ++ ws ++ String b0 b ++ post)
    with (String a0 (a ++ "," ++ ws ++ String b0 b ++ post)).
  cbn [in_cls]. rewrite Ha0.
  erewrite star_greedy_run; [reflexivity | exact Hda | reflexivity |].
  cbn beta. change ("," ++ ws ++ String b0 b ++ post) with (String "," (ws ++ String b0 b ++ post)).
  cbn [in_cls]. rewrite Ascii.eqb_refl.
  erewrite star_greedy_run; [reflexivity | exact Hws | |].
  - change (String b0 b ++ post) with (String b0 (b ++ post)).
    cbn [starts_in in_cls]. by apply digit_not_space.
  - cbn beta. change (String b0 b ++ post) with (String b0 (b ++ post)).
    cbn [in_cls]. rewrite Hb0.
    erewrite star_greedy_run; [reflexivity | exact Hdb | exact Hpost |].
    reflexivity.
Qed.

Section Skip.

Context {St : Type} (f : St -> found -> St * string).

Lemma limit_replace_bol (st : St) (s : string) :
  replace_go Pgsql.limitPattern f st true 0 s = replace_go Pgsql.limitPattern f st false 0 s.
Proof. by destruct s. Qed.

(** Up to the first [" LIMIT "] of the text nothing matches. *)
Lemma limit_skip (st : St) (pre y : string) :
  contains (pre ++ " LIMIT") " LIMIT " = false ->
  replace_go Pgsql.limitPattern f st false 0 (pre ++ " LIMIT" ++ y)
  = (let (st', out) := replace_go Pgsql.limitPattern f st false 0 (" LIMIT" ++ y) in
     (st', pre ++ out)).
Proof.
  induction pre as [|c pre IH]; intros H.
  - change (EmptyString ++ " LIMIT" ++ y) with (" LIMIT" ++ y).
    by destruct (replace_go _ _ _ _ _ _).
  - change (String c pre ++ " LIMIT") with (String c (pre ++ " LIMIT")) in H.
    apply contains_cons_false in H as [Hhead Htail].
    change (String c pre ++ " LIMIT" ++ y) with (String c (pre ++ " LIMIT" ++ y)).
    rewrite replace_go_miss.
    + rewrite (IH Htail).
      destruct (replace_go Pgsql.limitPattern f st false 0 (" LIMIT" ++ y)) as [st' out].
      reflexivity.
    + apply limit_opens.
      destruct (strip_prefix " LIMIT " (String c (pre ++ " LIMIT" ++ y))) as [r|] eqn:E; [|done].
      change (String c (pre ++ " LIMIT" ++ y)) with (String c pre ++ " LIMIT" ++ y) in E.
      rewrite <- StrFacts.app_assoc in E.
      apply strip_prefix_within in E as [r' Hr'].
      * change (String c pre ++ " LIMIT") with (String c (pre ++ " LIMIT")) in Hr'. congruence.
      * rewrite length_app. simpl. lia.
Qed.

End Skip.

Lemma limit_expand (w a b post : string) :
  expand Pgsql.limitTemplate (Found w [(2%nat, b); (1%nat, a)] post)
  = " LIMIT " ++ b ++ " OFFSET " ++ a.
Proof. vm_compute. reflexivity. Qed.

Lemma limitFix_clause (pre a ws b post : string) :
  a <> EmptyString -> Str.forallb is_digit a = true ->
  b <> EmptyString -> Str.forallb is_digit b = true ->
  Str.forallb is_space ws = true ->
  starts_in CDigit post = false ->
  contains (pre ++ " LIMIT") " LIMIT " = false ->
  contains post " LIMIT " = false ->
  Pgsql.limitFix (pre ++ " LIMIT " ++ a ++ "," ++ ws ++ b ++ post)
  = pre ++ " LIMIT " ++ b ++ " OFFSET " ++ a ++ post.
Proof.
  intros Ha Hda Hb Hdb Hws Hpost Hpre Hrest.
  unfold Pgsql.limitFix, ReplaceAllString, ReplaceAllFunc.
  rewrite limit_replace_bol.
  change (" LIMIT " ++ a ++ "," ++ ws ++ b ++ post)
    with (" LIMIT" ++ (" " ++ a ++ "," ++ ws ++ b ++ post)).
  rewrite limit_skip by exact Hpre.
  change (" LIMIT" ++ (" " ++ a ++ "," ++ ws ++ b ++ post))
    with (" LIMIT " ++ a ++ "," ++ ws ++ b ++ post).
  pose proof (limit_match a b ws post Ha Hda Hb Hdb Hws Hpost) as Hm.
  assert (Hshape : " LIMIT " ++ a ++ "," ++ ws ++ b ++ post
                   = String " " ("LIMIT " ++ a ++ "," ++ ws ++ b) ++ post).
  { repeat (progress simpl || rewrite StrFacts.app_assoc). reflexivity. }
  rewrite Hshape in *.
  rewrite (replace_go_match _ _ tt false " " _ post _ Hm).
  rewrite limit_expand.
  rewrite (replace_go_absent _ _ " LIMIT " tt false post limit_opens Hrest).
  repeat (progress simpl || rewrite StrFacts.app_assoc). reflexivity.
Qed.

End LimitFacts.

(** ** The schema introspector *)

Module IntrospectorFacts.
Import Gdb Clickhouse.

Section Facts.
Context {Var : Type} `{!VarOps Var}.

(** What [addField] subtracts from every position of the answer [result]. *)
Lemma addField_lookup (result : list (gmap string Var)) (fields : gmap string TableField)
    (m : gmap string Var) (name : string) (f : TableField) :
  addField result fields m !! name = Some f ->
  (name = rec_String m "name"
   /\ Index f = (rec_Int m "position"
                 - (match result with
                    | r0 :: _ => if (rec_Int r0 "position" =? 0)%Z then 0 else 1
                    | [] => 0
                    end))%Z)
  \/ fields !! name = Some f.
Proof.
  unfold addField.
  destruct (match Regexp.FindStringSubmatch nullablePattern 1 (rec_String m "type") with
            | [_; inner] => (true, inner)
            | _ => (false, rec_String m "type")
            end) as [isNull fieldType].
  destruct (decide (rec_String m "name" = name)) as [<-|Hne].
  - rewrite lookup_insert_eq. intros [= <-]. left. split; [done|]. simpl.
    destruct result as [|r0 ?]; [simpl; lia|].
    destruct (rec_Int r0 "position" =? 0)%Z; lia.
  - rewrite lookup_insert_ne by done. by right.
Qed.

Lemma fold_addField_lookup (result rows : list (gmap string Var))
    (fields : gmap string TableField) (name : string) (f : TableField) :
  fold_left (addField result) rows fields !! name = Some f ->
  (exists m, m ∈ rows /\ name = rec_String m "name"
     /\ Index f = (rec_Int m "position"
                   - (match result with
                      | r0 :: _ => if (rec_Int r0 "position" =? 0)%Z then 0 else 1
                      | [] => 0
                      end))%Z)
  \/ fields !! name = Some f.
Proof.
  revert fields. induction rows as [|m rows IH]; intros fields H; simpl in H.
  - by right.
  - apply IH in H as [(m' & Hin & Hm')|H].
    + left. exists m'. split; [by apply list_elem_of_further | done].
    + apply addField_lookup in H as [H|H]; [|by right].
      left. exists m. split; [by apply list_elem_of_here | done].
Qed.

(** C9, as the code has it.  Every field [TableFields] returns comes from a
    row of the catalog's answer that bears its name, and its index is that
    row's position less one when the position of the first row of the
    answer is not zero, and that row's position itself when it is zero. *)
Theorem TableFields_index_from_position (d : Catalog) (ctx : Context) (table : string)
    (schema : list string) (fields : gmap string TableField) (name : string)
    (f : TableField) :
  TableFields d ctx table schema = inl fields ->
  fields !! name = Some f ->
  exists link result m,
    SlaveLink d (GetOrDefaultStr (GetSchema d) schema) = inl link
    /\ DoSelect d ctx link (getColumnsSql table) = inl result
    /\ m ∈ result
    /\ rec_String m "name" = name
    /\ Index f = (rec_Int m "position"
                  - (match result with
                     | r0 :: _ => if (rec_Int r0 "position" =? 0)%Z then 0 else 1
                     | [] => 0
                     end))%Z.
Proof.
  unfold TableFields. intros Hrun Hf.
  destruct (SlaveLink d (GetOrDefaultStr (GetSchema d) schema)) as [link|e]; [|done].
  destruct (DoSelect d ctx link (getColumnsSql table)) as [result|e] eqn:Hsel; [|done].
  injection Hrun as <-. unfold collectFields in Hf.
  apply fold_addField_lookup in Hf as [(m & Hin & Hname & Hidx)|Hf].
  - by exists link, result, m.
  - by rewrite lookup_empty in Hf.
Qed.

End Facts.

Import Examples.

Lemma TableFields_index_from_position_witness :
  exists link result (m : gmap string cell),
    SlaveLink Examples.demoCatalog (GetOrDefaultStr (GetSchema Examples.demoCatalog) [])
    = inl link
    /\ DoSelect Examples.demoCatalog [] link (getColumnsSql "t") = inl result
    /\ m ∈ result
    /\ rec_String m "name" = "b"
    /\ 1%Z = (rec_Int m "position"
              - (match result with
                 | r0 :: _ => if (rec_Int r0 "position" =? 0)%Z then 0 else 1
                 | [] => 0
                 end))%Z.
Proof.
  apply (TableFields_index_from_position Examples.demoCatalog [] "t" []
           (collectFields Examples.demoColumns) "b"
           {| Index := 1; Name := "b"; Type_ := "String"; Null := true;
              Key := EmptyString; Default := None; Comment := EmptyString |}).
  - reflexivity.
  - vm_compute. reflexivity.
Defined.

(** C9 fails as stated: the catalog lists column [b], at position 2, before
    column [a], at position 1; the base read off the first row is 2, and
    the index of [b] is 1, not 2 - 2, and that of [a] is 0, not 1 - 2. *)
Lemma TableFields_subtracts_one_not_base :
  exists fields fb fa,
    TableFields Examples.demoCatalog [] "t" [] = inl fields
    /\ rec_Int (Examples.column "b" 2 "Nullable(String)") "position" = 2%Z
    /\ fields !! "b" = Some fb /\ Index fb = 1%Z /\ Index fb <> (2 - 2)%Z
    /\ fields !! "a" = Some fa /\ Index fa = 0%Z /\ Index fa <> (1 - 2)%Z.
Proof.
  eexists _, _, _. split; [reflexivity|].
  split; [vm_compute; reflexivity|].
  split; [vm_compute; reflexivity|]. split; [reflexivity|]. split; [discriminate|].
  split; [vm_compute; reflexivity|]. split; [reflexivity|]. discriminate.
Qed.

End IntrospectorFacts.

(** ** The statement rewriter *)

Module RewriterProps.
Import Str StrFacts Regexp RegexpFacts Gdb Canonical PlaceholderFacts NumberedFacts LimitFacts.

(** C10.  With no bound parameters the ClickHouse [DoFilter] hands back the
    statement and the empty parameter list as they are, with no error,
    whatever the context holds: no marker is numbered and no UPDATE or
    DELETE is rewritten. *)
Theorem clickhouse_DoFilter_no_args (V : Type) (ctx : Context) (link : option Link)
    (originSql : string) :
  Clickhouse.DoFilter ctx link originSql (@nil V) = (originSql, [], None).
Proof. reflexivity. Qed.




(** C2, where the code departs from it.  Under the needs-rewrite flag the
    statement [UPDATE t SET a=?] keeps its UPDATE form: the table pattern
    asks for two word characters at least, and [t] has one. *)
Theorem clickhouse_DoFilter_one_letter_table :
  Clickhouse.DoFilter (Clickhouse.injectNeedParsedSql []) None "UPDATE t SET a=?" [1%Z]
  = ("UPDATE t SET a=$1", [1%Z], None)
  /\ Clickhouse.DoFilter (Clickhouse.injectNeedParsedSql []) None
       "DELETE FROM t WHERE a=?" [1%Z]
     = ("DELETE FROM t WHERE a=$1", [1%Z], None)
  /\ Clickhouse.DoFilter (Clickhouse.injectNeedParsedSql []) None "UPDATE tt SET a=?" [1%Z]
     = ("ALTER TABLE tt UPDATE a=$1", [1%Z], None)
  /\ Clickhouse.DoFilter (Clickhouse.injectNeedParsedSql []) None
       "DELETE FROM tt WHERE a=?" [1%Z]
     = ("ALTER TABLE tt DELETE WHERE a=$1", [1%Z], None)
  /\ Clickhouse.DoFilter [] None "UPDATE tt SET a=?" [1%Z]
     = ("UPDATE tt SET a=$1", [1%Z], None).
Proof. repeat split; reflexivity. Qed.

(** C7, where the code departs from it.  The marker after the [::jsonb]
    cast is restored, but the markers were numbered before that: the one
    bound parameter of this statement is named [$2]. *)
Theorem pgsql_DoFilter_jsonb_numbering :
  Pgsql.DoFilter [] None "SELECT * FROM t WHERE a::jsonb ? 'k' AND b=?" [7%Z]
  = ("SELECT * FROM t WHERE a::jsonb ? 'k' AND b=$2", [7%Z], None).
Proof. reflexivity. Qed.

(** C8.  In a statement without markers and without [::jsonb], whose first
    [" LIMIT "] opens the clause [ LIMIT a,b] (digits [a] and [b], any
    blanks after the comma, no digit and no further [" LIMIT "] behind),
    the PostgreSQL [DoFilter] puts [ LIMIT b OFFSET a] in the place of the
    clause and leaves the rest as it is. *)
Theorem pgsql_DoFilter_limit (V : Type) (ctx : Context) (link : option Link)
    (args : list V) (pre a ws b post : string) :
  a <> EmptyString -> Str.forallb is_digit a = true ->
  b <> EmptyString -> Str.forallb is_digit b = true ->
  Str.forallb is_space ws = true ->
  starts_in CDigit post = false ->
  contains (pre ++ " LIMIT") " LIMIT " = false ->
  contains post " LIMIT " = false ->
  contains (pre ++ " LIMIT " ++ a ++ "," ++ ws ++ b ++ post) "?" = false ->
  contains (pre ++ " LIMIT " ++ a ++ "," ++ ws ++ b ++ post) "::jsonb" = false ->
  Pgsql.DoFilter ctx link (pre ++ " LIMIT " ++ a ++ "," ++ ws ++ b ++ post) args
  = (pre ++ " LIMIT " ++ b ++ " OFFSET " ++ a ++ post, args, None).
Proof.
  intros Ha Hda Hb Hdb Hws Hpost Hpre Hrest Hmark Hjson.
  unfold Pgsql.DoFilter, Core_DoFilter.
  assert (Hnum : Pgsql.numberPlaceholders (pre ++ " LIMIT " ++ a ++ "," ++ ws ++ b ++ post)
                 = pre ++ " LIMIT " ++ a ++ "," ++ ws ++ b ++ post).
  { unfold Pgsql.numberPlaceholders, ReplaceAllFunc, Pgsql.placeholderPattern.
    rewrite (replace_go_absent _ _ "?" 0%nat true _); [done | | done].
    intros bol t Ht. rewrite match_at_char. by rewrite Ht. }
  rewrite Hnum, (jsonbFix_absent _ Hjson).
  by rewrite limitFix_clause.
Qed.

Lemma pgsql_DoFilter_limit_witness :
  Pgsql.DoFilter [] None "SELECT * FROM t LIMIT 10,5" (@nil Z)
  = ("SELECT * FROM t LIMIT 5 OFFSET 10", [], None).
Proof.
  apply (pgsql_DoFilter_limit Z [] None [] "SELECT * FROM t" "10" EmptyString "5" EmptyString);
    (reflexivity || discriminate).
Defined.

End RewriterProps.

(** ** Generated keys on PostgreSQL *)

Module ExecProps.
Import Str Gdb Pgsql.

Section Facts.
Context {V R Var : Type} `{!VarOps Var}.

Lemma DoFilter_no_error (ctx : Context) (link : option Link) (sql : string)
    (args : list V) :
  (DoFilter ctx link sql args).2 = None.
Proof. reflexivity. Qed.

(** C6, as the code has it.  With a primary-key field of a non-empty name
    in the context and a statement that has [INSERT INTO] in it, [DoExec]
    commits the statement with [ RETURNING <name>] appended.  When rows
    come back the call succeeds: if the text [int] does not occur in the
    key's type name, the result carries the number of rows and the
    not-supported error for the last insert id; if it does, the result
    carries the number of rows and the key of the last row (and is the
    empty result when the last row lacks the key). *)
Theorem DoExec_returning_primary_key (d : @Core V R Var) (ctx : Context)
    (link : option Link) (sql : string) (args : list V) (pk : TableField)
    (used : Link) (records : list (gmap string Var)) (lastRecord : gmap string Var) :
  Value ctx internalPrimaryKeyInCtx = Some (CtxField pk) ->
  Name pk <> EmptyString ->
  contains sql "INSERT INTO" = true ->
  pickLink d ctx link = inl used ->
  DoCommit d ctx (returningInput d ctx used sql args pk) = inl records ->
  last records = Some lastRecord ->
  DoExec d ctx link sql args
  = if contains (Type_ pk) "int" then
      match lastRecord !! Name pk with
      | Some v =>
          (Some (OfDriver {| affected := Z.of_nat (List.length records);
                             lastInsertId := var_Int64 v;
                             lastInsertIdError := None |}), None)
      | None => (Some (OfDriver emptyResult), None)
      end
    else
      (Some (OfDriver {| affected := Z.of_nat (List.length records);
                         lastInsertId := 0;
                         lastInsertIdError :=
                           Some (ErrNotSupported
                                   ("LastInsertId is not supported by primary key type: "
                                    ++ Type_ pk)) |}), None).
Proof.
  intros Hctx Hname Hsql Hlink Hcommit Hlast.
  unfold DoExec. rewrite Hlink, Hctx, Hsql.
  assert (Hne : String.eqb (Name pk) EmptyString = false) by by apply String.eqb_neq.
  rewrite Hne. cbn [negb andb].
  unfold returningInput in Hcommit.
  destruct (FormatSqlBeforeExecuting d (sql ++ " RETURNING " ++ Name pk) args)
    as [sql1 args1].
  cbn [fst snd] in Hcommit.
  pose proof (DoFilter_no_error ctx (Some used) sql1 args1) as Herr.
  destruct (DoFilter ctx (Some used) sql1 args1) as [[sql2 args2] err].
  cbn [fst snd] in Hcommit, Herr. subst err.
  rewrite Hcommit, Hlast.
  by destruct (contains (Type_ pk) "int").
Qed.

End Facts.

Import Examples.

Lemma DoExec_returning_primary_key_witness :
  DoExec demoCore [(internalPrimaryKeyInCtx, CtxField (demoKey "int8"))] None
    "INSERT INTO t(name) VALUES (?)" [1%Z]
  = (Some (OfDriver {| affected := 1; lastInsertId := 7; lastInsertIdError := None |}),
     None).
Proof.
  etransitivity.
  - apply (DoExec_returning_primary_key demoCore
             [(internalPrimaryKeyInCtx, CtxField (demoKey "int8"))] None
             "INSERT INTO t(name) VALUES (?)" [1%Z] (demoKey "int8")
             {| link_id := 1; IsTransaction := false |}
             [ {[ "id" := CellInt 7 ]} ] {[ "id" := CellInt 7 ]});
      (reflexivity || discriminate).
  - vm_compute. reflexivity.
Defined.

(** C6 fails as stated: [numeric] is a numeric type, and for a primary key
    of that type the result carries the not-supported error and no key,
    though the row that came back has the key 7. *)
Lemma DoExec_numeric_key_not_supported :
  Canonical.isNumericType "numeric" = true
  /\ DoExec demoCore [(internalPrimaryKeyInCtx, CtxField (demoKey "numeric"))] None
       "INSERT INTO t(name) VALUES (?)" [1%Z]
     = (Some (OfDriver
          {| affected := 1; lastInsertId := 0;
             lastInsertIdError :=
               Some (ErrNotSupported
                       "LastInsertId is not supported by primary key type: numeric") |}),
        None)
  /\ DoExec demoCore [(internalPrimaryKeyInCtx, CtxField (demoKey "numeric"))] None
       "INSERT INTO t(name) VALUES (?)" [1%Z]
     <> (Some (OfDriver {| affected := 1; lastInsertId := 7; lastInsertIdError := None |}),
         None).
Proof.
  split; [reflexivity|]. split; [vm_compute; reflexivity|].
  vm_compute. discriminate.
Qed.

End ExecProps.

(** ** Case folding, trimming and backtracking *)

Module FoldFacts.
Import Str StrFacts Regexp RegexpFacts.

Lemma ascii_listed (a : ascii) : In a (List.map ascii_of_nat (seq 0 256)).
Proof.
  apply in_map_iff. exists (nat_of_ascii a). split.
  - apply ascii_nat_embedding.
  - apply in_seq. pose proof (nat_ascii_bounded a). lia.
Qed.

(** Under [(?i)] an upper-case letter of the pattern is matched by the
    bytes whose upper-case form it is. *)
Lemma eq_char_upper (a b : ascii) :
  is_upper a = true -> eq_char true a b = Ascii.eqb a (to_upper_ascii b).
Proof.
  assert (H : List.forallb (fun a => List.forallb (fun b =>
                implb (is_upper a)
                  (Bool.eqb (eq_char true a b) (Ascii.eqb a (to_upper_ascii b))))
                (List.map ascii_of_nat (seq 0 256)))
              (List.map ascii_of_nat (seq 0 256)) = true) by (vm_compute; reflexivity).
  rewrite forallb_forall in H. specialize (H a (ascii_listed a)).
  rewrite forallb_forall in H. specialize (H b (ascii_listed b)).
  intros Ha. rewrite Ha in H. simpl in H. by apply eqb_prop in H.
Qed.

(** A folded literal of upper-case letters reads the upper-case form of
    the text. *)
Lemma lit_fold_none (p s : string) :
  Str.forallb is_upper p = true ->
  strip_prefix p (ToUpper s) = None -> lit true p s = None.
Proof.
  revert s. induction p as [|a p IH]; intros s Hp H; [done|].
  simpl in Hp. apply andb_prop in Hp as [Ha Hp].
  destruct s as [|b s]; [done|].
  cbn [lit]. rewrite (eq_char_upper a b Ha).
  change (ToUpper (String b s)) with (String (to_upper_ascii b) (ToUpper s)) in H.
  cbn [strip_prefix] in H.
  destruct (Ascii.eqb a (to_upper_ascii b)); [|done].
  by rewrite (IH s Hp H).
Qed.

Lemma lit_fold_self (p rest : string) :
  Str.forallb is_upper p = true -> lit true p (p ++ rest) = Some (p, rest).
Proof.
  induction p as [|a p IH]; intros Hp; [done|].
  simpl in Hp. apply andb_prop in Hp as [Ha Hp].
  change (String a p ++ rest) with (String a (p ++ rest)).
  cbn [lit]. rewrite (eq_char_upper a a Ha).
  assert (Hup : to_upper_ascii a = a).
  { unfold to_upper_ascii. destruct (is_lower a) eqn:E; [|done].
    revert Ha E. destruct a as [[] [] [] [] [] [] [] []]; by vm_compute. }
  by rewrite Hup, Ascii.eqb_refl, (IH Hp).
Qed.

Lemma ToUpper_app (x y : string) : ToUpper (x ++ y) = ToUpper x ++ ToUpper y.
Proof.
  induction x as [|a x IH]; [done|].
  change (String a x ++ y) with (String a (x ++ y)).
  change (ToUpper (String a (x ++ y))) with (String (to_upper_ascii a) (ToUpper (x ++ y))).
  by rewrite IH.
Qed.

Section Replace.

Context {St : Type} (r : re) (f : St -> found -> St * string).

(** A pattern that opens with a folded literal [l] leaves a text alone in
    which [l] occurs in no letter case. *)
Lemma replace_go_absent_fold (l : string) (st : St) (bol : bool) (s : string) :
  (forall bol' t, strip_prefix l (ToUpper t) = None -> match_at r bol' t = None) ->
  contains (ToUpper s) l = false ->
  replace_go r f st bol 0 s = (st, s).
Proof.
  intros Hopen. revert bol. induction s as [|a s IH]; intros bol H; [reflexivity|].
  change (ToUpper (String a s)) with (String (to_upper_ascii a) (ToUpper s)) in H.
  apply contains_cons_false in H as [Hhead Htail].
  rewrite replace_go_miss by (by apply Hopen).
  by rewrite IH.
Qed.

End Replace.

Lemma find_absent_fold (r : re) (l : string) (bol : bool) (s : string) :
  l <> EmptyString ->
  (forall bol' t, strip_prefix l (ToUpper t) = None -> match_at r bol' t = None) ->
  contains (ToUpper s) l = false ->
  find r bol s = None.
Proof.
  intros Hl Hopen. revert bol. induction s as [|a s IH]; intros bol H.
  - cbn [find]. rewrite Hopen; [done|]. by destruct l.
  - change (ToUpper (String a s)) with (String (to_upper_ascii a) (ToUpper s)) in H.
    apply contains_cons_false in H as [Hhead Htail].
    cbn [find]. rewrite Hopen by done. by apply IH.
Qed.

Section Star.

Context {A : Type}.

(** A greedy star gives back the last byte of its run when what follows
    refuses the whole run and accepts the run less that byte. *)
Lemma star_greedy_backtrack (c : cls) (w : string) (b : ascii) (rest : string)
    (k : string -> string -> option A) (x : A) :
  Str.forallb (in_cls c) w = true -> in_cls c b = true ->
  starts_in c rest = false ->
  k (w ++ String b EmptyString) rest = None ->
  k w (String b rest) = Some x ->
  star true c (w ++ String b rest) k = Some x.
Proof.
  revert k. induction w as [|a w IH]; intros k Hw Hb Hrest Hfull Hless.
  - change (EmptyString ++ String b rest) with (String b rest).
    cbn [star]. rewrite Hb.
    assert (Hin : star true c rest (fun w0 rest0 => k (String b w0) rest0) = None).
    { destruct rest as [|r0 rest]; [exact Hfull|].
      cbn [star]. cbn [starts_in] in Hrest. rewrite Hrest. exact Hfull. }
    rewrite Hin. exact Hless.
  - simpl in Hw. apply andb_prop in Hw as [Ha Hw].
    change (String a w ++ String b rest) with (String a (w ++ String b rest)).
    cbn [star]. rewrite Ha.
    by rewrite (IH (fun w0 rest0 => k (String a w0) rest0) Hw Hb Hrest Hfull Hless).
Qed.

End Star.

(** *** [strings.TrimSpace] *)

Lemma rev_onto_app (s acc : string) : rev_onto s acc = rev s ++ acc.
Proof.
  unfold rev. revert acc. induction s as [|a s IH]; intros acc; [done|].
  cbn [rev_onto]. rewrite (IH (String a acc)), (IH (String a EmptyString)).
  by rewrite StrFacts.app_assoc.
Qed.

Lemma rev_app (x y : string) : rev (x ++ y) = rev y ++ rev x.
Proof.
  induction x as [|a x IH].
  - change (EmptyString ++ y) with y. by rewrite app_empty_r.
  - change (String a x ++ y) with (String a (x ++ y)).
    unfold rev at 1 3. cbn [rev_onto]. rewrite !rev_onto_app, IH.
    by rewrite StrFacts.app_assoc.
Qed.

Lemma rev_involutive (x : string) : rev (rev x) = x.
Proof.
  induction x as [|a x IH]; [done|].
  unfold rev at 2. cbn [rev_onto]. rewrite rev_onto_app, rev_app, IH. done.
Qed.

Lemma trim_left_keeps (z w : string) :
  w <> EmptyString -> trim_left w = w ->
  exists z', trim_left (z ++ w) = z' ++ w.
Proof.
  intros Hne Hw. induction z as [|a z IH].
  - exists EmptyString. exact Hw.
  - change (String a z ++ w) with (String a (z ++ w)). cbn [trim_left].
    destruct (is_trim_space a); [exact IH|].
    by exists (String a z).
Qed.

Lemma trim_left_head (x y : string) :
  x <> EmptyString -> trim_left x = x -> trim_left (x ++ y) = x ++ y.
Proof.
  destruct x as [|a x]; [done|]. intros _ H.
  change (String a x ++ y) with (String a (x ++ y)).
  cbn [trim_left] in *. destruct (is_trim_space a) eqn:E; [|done].
  exfalso. assert (Hlen : forall s, (String.length (trim_left s) <= String.length s)%nat).
  { clear. induction s as [|c s IH]; [done|]. cbn [trim_left].
    destruct (is_trim_space c); simpl; [lia | done]. }
  specialize (Hlen x). rewrite H in Hlen. simpl in Hlen. lia.
Qed.

(** Trimming keeps a head that neither begins nor ends with white
    space. *)
Lemma TrimSpace_head (x y : string) :
  x <> EmptyString -> trim_left x = x -> trim_left (rev x) = rev x ->
  exists y', TrimSpace (x ++ y) = x ++ y'.
Proof.
  intros Hne Hl Hr. unfold TrimSpace.
  rewrite (trim_left_head x y Hne Hl), rev_app.
  assert (Hrev : rev x <> EmptyString).
  { intros E. apply (f_equal rev) in E. rewrite rev_involutive in E. done. }
  destruct (trim_left_keeps (rev y) (rev x) Hrev Hr) as [z' Hz'].
  rewrite Hz', rev_app, rev_involutive. by exists (rev z').
Qed.

Lemma trim_left_suffix (s : string) : exists l, s = l ++ trim_left s.
Proof.
  induction s as [|a s IH]; [by exists EmptyString|].
  cbn [trim_left]. destruct (is_trim_space a); [|by exists EmptyString].
  destruct IH as [l Hl]. exists (String a l). simpl. by rewrite <- Hl.
Qed.

Lemma TrimSpace_within (s : string) : exists l r, s = l ++ TrimSpace s ++ r.
Proof.
  unfold TrimSpace.
  destruct (trim_left_suffix s) as [l Hl].
  destruct (trim_left_suffix (rev (trim_left s))) as [r Hr].
  exists l, (rev r).
  apply (f_equal rev) in Hr. rewrite rev_involutive, rev_app in Hr.
  by rewrite <- Hr.
Qed.

Lemma contains_within (l m r sub : string) :
  contains (l ++ m ++ r) sub = false -> contains m sub = false.
Proof.
  intros H. destruct (contains m sub) eqn:E; [|done].
  by rewrite (contains_app_r l _ sub (contains_app_l m r sub E)) in H.
Qed.

End FoldFacts.

(** ** The ALTER TABLE forms of UPDATE and DELETE *)

Module GrammarFacts.
Import Str StrFacts Regexp RegexpFacts FoldFacts Gdb Clickhouse Canonical
  PlaceholderFacts NumberedFacts.

(** Two spellings of one text, up to the bracketing of [++]. *)
Ltac same_text :=
  repeat (progress simpl || rewrite StrFacts.app_assoc || rewrite app_empty_r);
  reflexivity.

Lemma word_not_space (c : ascii) : is_word c = true -> is_space c = false.
Proof. destruct c as [[] [] [] [] [] [] [] []]; by vm_compute. Qed.

Lemma word_not_dot (c : ascii) : is_word c = true -> Ascii.eqb "." c = false.
Proof. destruct c as [[] [] [] [] [] [] [] []]; by vm_compute. Qed.

Lemma star_stops (A : Type) (g : bool) (c : cls) (s : string)
    (k : string -> string -> option A) :
  starts_in c s = false -> star g c s k = k EmptyString s.
Proof.
  destruct s as [|a s]; [done|]. cbn [starts_in star]. by intros ->.
Qed.

(** The table pattern takes a run of two word characters or more that
    neither a word character nor a dot follows. *)
Lemma tableRef_run (A : Type) (bol : bool) (a b : ascii) (w rest : string) (cs : caps)
    (k : string -> caps -> string -> option A) (x : A) :
  is_word a = true -> Str.forallb is_word w = true -> is_word b = true ->
  starts_in CWord rest = false -> starts_in (CChar ".") rest = false ->
  k (String a (w ++ String b EmptyString)) cs rest = Some x ->
  exec tableRef bol (String a (w ++ String b rest)) cs k = Some x.
Proof.
  intros Ha Hw Hb Hrest Hdot Hk.
  unfold tableRef, Plus, Opt. cbn [exec in_cls]. rewrite Ha.
  apply star_greedy_backtrack; [exact Hw | exact Hb | exact Hrest | |].
  - destruct rest as [|r0 rest]; [done|].
    cbn [starts_in in_cls] in Hrest, Hdot. by rewrite Hdot, Hrest.
  - rewrite (word_not_dot b Hb), Hb. cbn [orelse].
    rewrite star_stops by exact Hrest.
    rewrite <- Hk; f_equal; same_text.
Qed.

Lemma update_opens (bol : bool) (t : string) :
  strip_prefix "UPDATE" (ToUpper t) = None -> match_at updateFilterPattern bol t = None.
Proof.
  intros H. unfold match_at, updateFilterPattern. cbn [exec].
  by rewrite (lit_fold_none "UPDATE" t eq_refl H).
Qed.

Lemma delete_opens (bol : bool) (t : string) :
  strip_prefix "DELETE" (ToUpper t) = None -> match_at deleteFilterPattern bol t = None.
Proof.
  intros H. unfold match_at, deleteFilterPattern. cbn [exec].
  by rewrite (lit_fold_none "DELETE" t eq_refl H).
Qed.

Lemma last_byte (t : string) :
  t <> EmptyString -> exists w b, t = w ++ String b EmptyString.
Proof.
  induction t as [|c t IH]; [done|]. intros _.
  destruct t as [|c' t].
  - by exists EmptyString, c.
  - destruct IH as (w & b & Hwb); [done|]. exists (String c w), b.
    simpl. by rewrite Hwb.
Qed.

(** A text of two bytes or more has a first and a last byte. *)
Lemma two_bytes (t : string) :
  (2 <= String.length t)%nat ->
  exists a w b, t = String a (w ++ String b EmptyString).
Proof.
  destruct t as [|a t]; [simpl; lia|]. intros H. exists a.
  destruct (last_byte t) as (w & b & ->); [destruct t; [simpl in H; lia | done]|].
  by exists w, b.
Qed.

Lemma forallb_app (p : ascii -> bool) (x y : string) :
  Str.forallb p (x ++ y) = Str.forallb p x && Str.forallb p y.
Proof.
  induction x as [|a x IH]; [done|].
  change (String a x ++ y) with (String a (x ++ y)). cbn [Str.forallb].
  by rewrite IH, andb_assoc.
Qed.

Lemma contains_char_app (c : ascii) (x y : string) :
  contains x (String c EmptyString) = false ->
  contains y (String c EmptyString) = false ->
  contains (x ++ y) (String c EmptyString) = false.
Proof.
  intros Hx Hy. induction x as [|a x IH]; [exact Hy|].
  change (String a x ++ y) with (String a (x ++ y)).
  cbn [contains strip_prefix] in *.
  destruct (Ascii.eqb c a); [done | by apply IH].
Qed.

Lemma word_no_marker (t : string) :
  Str.forallb is_word t = true -> contains t "?" = false.
Proof.
  induction t as [|a t IH]; [done|]. cbn [Str.forallb].
  intros [Ha Ht]%andb_prop. cbn [contains strip_prefix].
  assert (Hq : Ascii.eqb "?" a = false).
  { revert Ha. clear. destruct a as [[] [] [] [] [] [] [] []]; by vm_compute. }
  rewrite Hq. by apply IH.
Qed.

(** The table pattern takes two runs of word characters with a dot
    between, when no word character follows. *)
Lemma tableRef_dotted (A : Type) (bol : bool) (a1 a2 : ascii) (w1 w2 rest : string)
    (cs : caps) (k : string -> caps -> string -> option A) (x : A) :
  is_word a1 = true -> Str.forallb is_word w1 = true ->
  is_word a2 = true -> Str.forallb is_word w2 = true ->
  starts_in CWord rest = false ->
  k (String a1 w1 ++ "." ++ String a2 w2) cs rest = Some x ->
  exec tableRef bol (String a1 (w1 ++ "." ++ String a2 w2 ++ rest)) cs k = Some x.
Proof.
  intros Ha1 Hw1 Ha2 Hw2 Hrest Hk.
  unfold tableRef, Plus, Opt. cbn [exec in_cls]. rewrite Ha1.
  erewrite star_greedy_run; [reflexivity | exact Hw1 | reflexivity |].
  cbn beta.
  change ("." ++ String a2 w2 ++ rest) with (String "." (String a2 (w2 ++ rest))).
  cbn [in_cls]. rewrite Ascii.eqb_refl, Ha2.
  erewrite star_greedy_run; [reflexivity | exact Hw2 | exact Hrest |].
  rewrite <- Hk; f_equal; same_text.
Qed.

(** *** Table names *)

Lemma tableName_head (t : string) :
  TableNames.tableName t -> exists a t', t = String a t' /\ is_word a = true.
Proof.
  intros [[Hlen Hword] | (db & table & -> & Hdb & _ & Hwdb & _)].
  - destruct t as [|a t']; [simpl in Hlen; lia|]. exists a, t'.
    cbn [Str.forallb] in Hword. by apply andb_prop in Hword as [? _].
  - destruct db as [|a db']; [done|]. exists a, (db' ++ "." ++ table).
    cbn [Str.forallb] in Hwdb. by apply andb_prop in Hwdb as [? _].
Qed.

Lemma tableName_no_marker (t : string) :
  TableNames.tableName t -> contains t "?" = false.
Proof.
  intros [[_ Hword] | (db & table & -> & _ & _ & Hwdb & Hwt)].
  - by apply word_no_marker.
  - apply contains_char_app; [by apply word_no_marker|].
    apply (contains_char_app "?" "."); [reflexivity | by apply word_no_marker].
Qed.

(** The table pattern takes a table name that neither a word character
    nor a dot follows. *)
Lemma tableRef_takes (A : Type) (bol : bool) (t rest : string) (cs : caps)
    (k : string -> caps -> string -> option A) (x : A) :
  TableNames.tableName t ->
  starts_in CWord rest = false -> starts_in (CChar ".") rest = false ->
  k t cs rest = Some x ->
  exec tableRef bol (t ++ rest) cs k = Some x.
Proof.
  intros [[Hlen Hword] | (db & table & -> & Hdb & Htable & Hwdb & Hwt)] Hrest Hdot Hk.
  - destruct (two_bytes t Hlen) as (a & w & b & ->).
    cbn [Str.forallb] in Hword. apply andb_prop in Hword as [Ha Hword].
    rewrite forallb_app in Hword. apply andb_prop in Hword as [Hw Hb].
    cbn [Str.forallb] in Hb. rewrite andb_true_r in Hb.
    replace (String a (w ++ String b EmptyString) ++ rest)
      with (String a (w ++ String b rest)) by same_text.
    by apply tableRef_run.
  - destruct db as [|a1 w1]; [done|]. destruct table as [|a2 w2]; [done|].
    cbn [Str.forallb] in Hwdb, Hwt.
    apply andb_prop in Hwdb as [Ha1 Hw1]. apply andb_prop in Hwt as [Ha2 Hw2].
    replace ((String a1 w1 ++ "." ++ String a2 w2) ++ rest)
      with (String a1 (w1 ++ "." ++ String a2 w2 ++ rest)) by same_text.
    by apply tableRef_dotted.
Qed.

Lemma update_match (bol : bool) (t rest : string) :
  TableNames.tableName t ->
  match_at updateFilterPattern bol ("UPDATE " ++ t ++ " SET" ++ rest)
  = Some (Found ("UPDATE " ++ t ++ " SET") [(1%nat, t)] rest).
Proof.
  intros Ht. destruct (tableName_head t Ht) as (a & t' & Ht' & Ha).
  unfold match_at, updateFilterPattern, Plus. cbn [exec].
  change ("UPDATE " ++ t ++ " SET" ++ rest)
    with ("UPDATE" ++ String " " (t ++ " SET" ++ rest)).
  rewrite (lit_fold_self "UPDATE" _ eq_refl).
  change (in_cls CSpace " ") with true. cbn iota.
  rewrite star_stops
    by (rewrite Ht'; cbn [String.append starts_in in_cls]; by apply word_not_space).
  erewrite tableRef_takes; [reflexivity | exact Ht | reflexivity | reflexivity |].
  change (" SET" ++ rest) with (String " " ("SET" ++ rest)).
  change (in_cls CSpace " ") with true. cbn iota.
  rewrite star_stops by reflexivity.
  rewrite (lit_fold_self "SET" _ eq_refl).
  do 2 f_equal; same_text.
Qed.

Lemma delete_match (bol : bool) (t rest : string) :
  TableNames.tableName t ->
  starts_in CWord rest = false -> starts_in (CChar ".") rest = false ->
  match_at deleteFilterPattern bol ("DELETE FROM " ++ t ++ rest)
  = Some (Found ("DELETE FROM " ++ t) [(1%nat, t)] rest).
Proof.
  intros Ht Hrest Hdot. destruct (tableName_head t Ht) as (a & t' & Ht' & Ha).
  unfold match_at, deleteFilterPattern, Plus. cbn [exec].
  change ("DELETE FROM " ++ t ++ rest)
    with ("DELETE" ++ String " " ("FROM" ++ String " " (t ++ rest))).
  rewrite (lit_fold_self "DELETE" _ eq_refl).
  change (in_cls CSpace " ") with true. cbn iota.
  rewrite star_stops by reflexivity.
  rewrite (lit_fold_self "FROM" _ eq_refl).
  change (in_cls CSpace " ") with true. cbn iota.
  rewrite star_stops
    by (rewrite Ht'; cbn [String.append starts_in in_cls]; by apply word_not_space).
  erewrite tableRef_takes; [reflexivity | exact Ht | exact Hrest | exact Hdot |].
  do 2 f_equal; same_text.
Qed.

(** *** The statement type *)

Lemma filterType_update (y : string) :
  FindStringSubmatch filterTypePattern 0 ("UPDATE" ++ y) = ["UPDATE"].
Proof. vm_compute. reflexivity. Qed.

Lemma filterType_delete (y : string) :
  FindStringSubmatch filterTypePattern 0 ("DELETE" ++ y) = ["DELETE"].
Proof. vm_compute. reflexivity. Qed.

(** *** The rewriting of a whole statement *)

Lemma rewriteGrammar_update (t rest : string) :
  TableNames.tableName t ->
  contains (ToUpper rest) "UPDATE" = false ->
  rewriteGrammar ("UPDATE " ++ t ++ " SET" ++ rest)
  = "ALTER TABLE " ++ t ++ " UPDATE" ++ rest.
Proof.
  intros Ht Hrest.
  unfold rewriteGrammar.
  destruct (TrimSpace_head "UPDATE" (" " ++ t ++ " SET" ++ rest))
    as [y' Hy']; [done | reflexivity | reflexivity |].
  change ("UPDATE" ++ " " ++ t ++ " SET" ++ rest)
    with ("UPDATE " ++ t ++ " SET" ++ rest) in Hy'.
  rewrite Hy', filterType_update.
  change (String.eqb (ToUpper "UPDATE") "UPDATE") with true. cbn iota.
  unfold ReplaceAllFunc.
  pose proof (update_match true t rest Ht) as Hm.
  assert (Hshape : "UPDATE " ++ t ++ " SET" ++ rest
                   = String "U" ("PDATE " ++ t ++ " SET") ++ rest) by same_text.
  rewrite Hshape in *.
  rewrite (replace_go_match _ _ tt true "U" _ rest _ Hm).
  cbn [alterUpdate groups sub Nat.eqb].
  rewrite (replace_go_absent_fold _ _ "UPDATE" tt false rest update_opens Hrest).
  cbn [snd]. same_text.
Qed.

Lemma rewriteGrammar_delete (t rest : string) :
  TableNames.tableName t ->
  starts_in CWord rest = false -> starts_in (CChar ".") rest = false ->
  contains (ToUpper rest) "DELETE" = false ->
  rewriteGrammar ("DELETE FROM " ++ t ++ rest)
  = "ALTER TABLE " ++ t ++ " DELETE" ++ rest.
Proof.
  intros Ht Hstart Hdot Hrest.
  unfold rewriteGrammar.
  destruct (TrimSpace_head "DELETE" (" FROM " ++ t ++ rest))
    as [y' Hy']; [done | reflexivity | reflexivity |].
  change ("DELETE" ++ " FROM " ++ t ++ rest)
    with ("DELETE FROM " ++ t ++ rest) in Hy'.
  rewrite Hy', filterType_delete.
  change (String.eqb (ToUpper "DELETE") "UPDATE") with false.
  change (String.eqb (ToUpper "DELETE") "DELETE") with true. cbn iota.
  unfold ReplaceAllFunc.
  pose proof (delete_match true t rest Ht Hstart Hdot) as Hm.
  assert (Hshape : "DELETE FROM " ++ t ++ rest
                   = String "D" ("ELETE FROM " ++ t) ++ rest) by same_text.
  rewrite Hshape in *.
  rewrite (replace_go_match _ _ tt true "D" _ rest _ Hm).
  cbn [alterDelete groups sub Nat.eqb].
  rewrite (replace_go_absent_fold _ _ "DELETE" tt false rest delete_opens Hrest).
  cbn [snd]. same_text.
Qed.

(** *** Statements with markers *)

Lemma marked_head (x seg0 : string) (segs : list string) :
  x ++ marked seg0 segs = marked (x ++ seg0) segs.
Proof. destruct segs; cbn [marked]; [done | by rewrite StrFacts.app_assoc]. Qed.

Lemma numbered_head (x : string) (i : nat) (seg0 : string) (segs : list string) :
  x ++ numbered i seg0 segs = numbered i (x ++ seg0) segs.
Proof. destruct segs; cbn [numbered]; [done | by rewrite StrFacts.app_assoc]. Qed.

Lemma ToUpper_digits (d : string) :
  Str.forallb is_digit d = true -> ToUpper d = d.
Proof.
  induction d as [|a d IH]; [done|]. cbn [Str.forallb].
  intros [Ha Hd]%andb_prop.
  change (ToUpper (String a d)) with (String (to_upper_ascii a) (ToUpper d)).
  rewrite (IH Hd). f_equal.
  revert Ha. clear. destruct a as [[] [] [] [] [] [] [] []]; by vm_compute.
Qed.

Lemma ToUpper_marked (seg0 : string) (segs : list string) :
  ToUpper (marked seg0 segs) = marked (ToUpper seg0) (List.map ToUpper segs).
Proof.
  revert seg0. induction segs as [|s segs IH]; intros seg0; [done|].
  cbn [marked List.map]. by rewrite !ToUpper_app, IH.
Qed.

Lemma ToUpper_numbered (i : nat) (seg0 : string) (segs : list string) :
  ToUpper (numbered i seg0 segs) = numbered i (ToUpper seg0) (List.map ToUpper segs).
Proof.
  revert i seg0. induction segs as [|s segs IH]; intros i seg0; [done|].
  cbn [numbered List.map]. rewrite !ToUpper_app, IH.
  by rewrite (ToUpper_digits (dec i) (dec_digits i)).
Qed.

(** Numbering the markers brings in no keyword, in any letter case. *)
Lemma numbered_without (sub : string) (i : nat) (seg0 : string) (segs : list string) :
  sub <> EmptyString -> Str.forallb plain sub = true ->
  contains (ToUpper (marked seg0 segs)) sub = false ->
  contains (ToUpper (numbered i seg0 segs)) sub = false.
Proof.
  intros Hne Hsub H. rewrite ToUpper_numbered.
  destruct (contains (numbered i (ToUpper seg0) (List.map ToUpper segs)) sub) eqn:E; [|done].
  apply contains_numbered in E; [|done|done].
  by rewrite <- ToUpper_marked, H in E.
Qed.

(** The text of a flagged statement with parameters, after [DoFilter]. *)
Lemma DoFilter_flagged (V : Type) (ctx : Context) (link : option Link)
    (sql : string) (args : list V) :
  getNeedParsedSqlFromCtx ctx = true -> args <> [] ->
  DoFilter ctx link sql args = (rewriteGrammar (numberPlaceholders sql), args, None).
Proof.
  intros Hflag Hargs. destruct args as [|a args]; [done|].
  unfold DoFilter. by rewrite Hflag.
Qed.

End GrammarFacts.

Module GrammarProps.
Import Str StrFacts Regexp RegexpFacts FoldFacts Gdb Clickhouse Canonical
  PlaceholderFacts NumberedFacts GrammarFacts.

(** X2.  Under the needs-rewrite flag and with parameters, the statement
    [UPDATE t SET] followed by a text with markers, where [t] is a table
    name ([table] of two word characters or more, or [db.table]) and the
    text has no further [UPDATE] in any letter case, comes back as
    [ALTER TABLE t UPDATE] followed by the text with its markers numbered
    from 1; the parameters are as they were. *)
Theorem DoFilter_update_to_alter (V : Type) (ctx : Context) (link : option Link)
    (args : list V) (t seg0 : string) (segs : list string) :
  getNeedParsedSqlFromCtx ctx = true -> args <> [] ->
  TableNames.tableName t ->
  Forall markerFree (seg0 :: segs) ->
  contains (ToUpper (marked seg0 segs)) "UPDATE" = false ->
  DoFilter ctx link ("UPDATE " ++ t ++ " SET" ++ marked seg0 segs) args
  = ("ALTER TABLE " ++ t ++ " UPDATE" ++ numbered 1 seg0 segs, args, None).
Proof.
  intros Hflag Hargs Ht Hfree Hrest.
  rewrite (DoFilter_flagged V ctx link _ args Hflag Hargs).
  replace ("UPDATE " ++ t ++ " SET" ++ marked seg0 segs)
    with (marked (("UPDATE " ++ t ++ " SET") ++ seg0) segs)
    by (rewrite <- marked_head; same_text).
  inversion Hfree as [|? ? Hseg0 Hsegs]; subst.
  assert (Hfree' : Forall markerFree ((("UPDATE " ++ t ++ " SET") ++ seg0) :: segs)).
  { constructor; [|done]. unfold markerFree. apply contains_char_app; [|done].
    apply (contains_char_app "?" "UPDATE "); [done|].
    apply contains_char_app; [by apply tableName_no_marker | done]. }
  destruct (numberPlaceholders_marked _ segs Hfree') as [-> _].
  rewrite <- numbered_head.
  replace (("UPDATE " ++ t ++ " SET") ++ numbered 1 seg0 segs)
    with ("UPDATE " ++ t ++ " SET" ++ numbered 1 seg0 segs) by same_text.
  by rewrite rewriteGrammar_update by (done || by apply numbered_without).
Qed.

Lemma DoFilter_update_to_alter_witness :
  DoFilter (injectNeedParsedSql []) None "UPDATE db.t SET a=? WHERE b=?" [1%Z; 2%Z]
  = ("ALTER TABLE db.t UPDATE a=$1 WHERE b=$2", [1%Z; 2%Z], None).
Proof.
  apply (DoFilter_update_to_alter Z (injectNeedParsedSql []) None [1%Z; 2%Z]
           "db.t" " a=" [" WHERE b="; EmptyString]).
  - reflexivity.
  - discriminate.
  - right. exists "db", "t". repeat split; discriminate.
  - repeat constructor.
  - reflexivity.
Defined.

(** X3.  Under the needs-rewrite flag and with parameters, the statement
    [DELETE FROM t] followed by a text with markers, where [t] is a table
    name ([table] of two word characters or more, or [db.table]), the text
    begins with neither a word character nor a dot and has no further
    [DELETE] in any letter case, comes back as [ALTER TABLE t DELETE]
    followed by the text with its markers numbered from 1; the parameters
    are as they were. *)
Theorem DoFilter_delete_to_alter (V : Type) (ctx : Context) (link : option Link)
    (args : list V) (t seg0 : string) (segs : list string) :
  getNeedParsedSqlFromCtx ctx = true -> args <> [] ->
  TableNames.tableName t ->
  Forall markerFree (seg0 :: segs) ->
  starts_in CWord seg0 = false -> starts_in (CChar ".") seg0 = false ->
  contains (ToUpper (marked seg0 segs)) "DELETE" = false ->
  DoFilter ctx link ("DELETE FROM " ++ t ++ marked seg0 segs) args
  = ("ALTER TABLE " ++ t ++ " DELETE" ++ numbered 1 seg0 segs, args, None).
Proof.
  intros Hflag Hargs Ht Hfree Hstart Hdot Hrest.
  rewrite (DoFilter_flagged V ctx link _ args Hflag Hargs).
  replace ("DELETE FROM " ++ t ++ marked seg0 segs)
    with (marked (("DELETE FROM " ++ t) ++ seg0) segs)
    by (rewrite <- marked_head; same_text).
  inversion Hfree as [|? ? Hseg0 Hsegs]; subst.
  assert (Hfree' : Forall markerFree ((("DELETE FROM " ++ t) ++ seg0) :: segs)).
  { constructor; [|done]. unfold markerFree. apply contains_char_app; [|done].
    apply (contains_char_app "?" "DELETE FROM "); [done|].
    by apply tableName_no_marker. }
  destruct (numberPlaceholders_marked _ segs Hfree') as [-> _].
  rewrite <- numbered_head.
  replace (("DELETE FROM " ++ t) ++ numbered 1 seg0 segs)
    with ("DELETE FROM " ++ t ++ numbered 1 seg0 segs) by same_text.
  assert (Hhead : forall c, starts_in c seg0 = false -> in_cls c "$" = false ->
                  starts_in c (numbered 1 seg0 segs) = false).
  { intros c Hc Hdollar. destruct segs as [|s segs]; [exact Hc|].
    cbn [numbered]. destruct seg0 as [|a0 seg0]; [exact Hdollar | exact Hc]. }
  rewrite rewriteGrammar_delete; [done | done | | | ].
  - by apply Hhead.
  - by apply Hhead.
  - by apply numbered_without.
Qed.

Lemma DoFilter_delete_to_alter_witness :
  DoFilter (injectNeedParsedSql []) None "DELETE FROM tt WHERE a=?" [1%Z]
  = ("ALTER TABLE tt DELETE WHERE a=$1", [1%Z], None).
Proof.
  apply (DoFilter_delete_to_alter Z (injectNeedParsedSql []) None [1%Z]
           "tt" " WHERE a=" [EmptyString]).
  - reflexivity.
  - discriminate.
  - left. split; [simpl; lia | reflexivity].
  - repeat constructor.
  - reflexivity.
  - reflexivity.
  - reflexivity.
Defined.

End GrammarProps.

(** ** The needs-rewrite flag *)

Module FlagProps.
Import Str StrFacts Regexp RegexpFacts FoldFacts Gdb Clickhouse ClickhouseOps Canonical
  PlaceholderFacts NumberedFacts GrammarFacts.


Section Writes.
Context {V R D : Type}.


End Writes.

(** *** Statements that are neither UPDATE nor DELETE *)

Lemma filterType_absent (bol : bool) (s : string) :
  contains (ToUpper s) "UPDATE" = false -> contains (ToUpper s) "DELETE" = false ->
  find filterTypePattern bol s = None.
Proof.
  assert (Hat : forall b t, strip_prefix "UPDATE" (ToUpper t) = None ->
                  strip_prefix "DELETE" (ToUpper t) = None ->
                  match_at filterTypePattern b t = None).
  { intros b t Hu Hd. unfold match_at, filterTypePattern. cbn [exec].
    rewrite (lit_fold_none "DELETE" t eq_refl Hd).
    destruct b; cbn [andb]; by rewrite ?(lit_fold_none "UPDATE" t eq_refl Hu). }
  revert bol. induction s as [|a s IH]; intros bol Hu Hd.
  - cbn [find]. by rewrite Hat.
  - change (ToUpper (String a s)) with (String (to_upper_ascii a) (ToUpper s)) in Hu, Hd.
    apply contains_cons_false in Hu as [Hu0 Hu]. apply contains_cons_false in Hd as [Hd0 Hd].
    cbn [find]. rewrite Hat by done. by apply IH.
Qed.

Lemma rewriteGrammar_other (s : string) :
  contains (ToUpper s) "UPDATE" = false -> contains (ToUpper s) "DELETE" = false ->
  rewriteGrammar s = s.
Proof.
  intros Hu Hd. unfold rewriteGrammar, FindStringSubmatch.
  destruct (TrimSpace_within s) as (l & r & Hs).
  rewrite Hs, !ToUpper_app in Hu, Hd.
  apply contains_within in Hu, Hd.
  by rewrite (filterType_absent true _ Hu Hd).
Qed.

(** X4.  A statement in which neither [UPDATE] nor [DELETE] occurs, in any
    letter case, comes back with its markers numbered and nothing else
    changed, with the flag or without it. *)
Theorem DoFilter_leaves_other_statements (V : Type) (ctx : Context)
    (link : option Link) (args : list V) (seg0 : string) (segs : list string) :
  args <> [] -> Forall markerFree (seg0 :: segs) ->
  contains (ToUpper (marked seg0 segs)) "UPDATE" = false ->
  contains (ToUpper (marked seg0 segs)) "DELETE" = false ->
  DoFilter ctx link (marked seg0 segs) args = (numbered 1 seg0 segs, args, None).
Proof.
  intros Hargs Hfree Hu Hd. destruct args as [|a args]; [done|].
  unfold DoFilter. destruct (numberPlaceholders_marked seg0 segs Hfree) as [-> _].
  destruct (getNeedParsedSqlFromCtx ctx); [|reflexivity]. cbn [negb].
  by rewrite rewriteGrammar_other by (by apply numbered_without).
Qed.

Lemma DoFilter_leaves_other_statements_witness :
  DoFilter (injectNeedParsedSql []) None "SELECT * FROM tt WHERE a=?" [1%Z]
  = ("SELECT * FROM tt WHERE a=$1", [1%Z], None).
Proof.
  apply (DoFilter_leaves_other_statements Z (injectNeedParsedSql []) None [1%Z]
           "SELECT * FROM tt WHERE a=" [EmptyString]).
  - discriminate.
  - repeat constructor.
  - reflexivity.
  - reflexivity.
Defined.


End FlagProps.

(** ** The batch insert, before and after the rows *)

Module BatchInsertProps.
Import Gdb Clickhouse BatchInsertFacts.

Section Props.
Context {V R : Type}.
Implicit Types (c : @Conn V R) (calls : list (@event V)) (rows : list (gmap string V)).

Lemma DoInsert_begin_failure c calls0 ctx link table first rest e :
  beginFails c calls0 = Some e ->
  DoInsert c calls0 ctx link table (first :: rest)
  = Return (calls0 ++ [EvBegin])%list None (Some e)
  /\ committed (calls0 ++ [EvBegin])%list = committed calls0.
Proof.
  intros H. split.
  - unfold DoInsert. by rewrite H.
  - unfold committed. by rewrite settle_begin.
Qed.

Lemma DoInsert_prepare_failure c calls0 ctx link table first rest e :
  beginFails c calls0 = None ->
  prepareFails c (calls0 ++ [EvBegin])%list
    (insertQuery c table (rangeKeys c first)) = Some e ->
  DoInsert c calls0 ctx link table (first :: rest)
  = Return (calls0 ++ [EvBegin; EvPrepare (insertQuery c table (rangeKeys c first));
                       EvRollback])%list None (Some e)
  /\ committed (calls0 ++ [EvBegin; EvPrepare (insertQuery c table (rangeKeys c first));
                           EvRollback])%list = committed calls0.
Proof.
  intros Hb Hp. split.
  - unfold DoInsert. rewrite Hb, Hp. cbn [finish]. by rewrite <- !app_assoc.
  - unfold committed.
    change (calls0 ++ [EvBegin; EvPrepare (insertQuery c table (rangeKeys c first));
                       EvRollback])%list
      with (calls0 ++ EvBegin :: [EvPrepare (insertQuery c table (rangeKeys c first));
                                  EvRollback])%list.
    by rewrite settle_begin.
Qed.

(** X6.  What [DoInsert] does before the first row.  An empty batch makes it
    panic on [list[0]], before any call on the connection.  When the
    transaction cannot be begun it returns the error of Begin, and nothing
    is prepared, executed, committed or rolled back.  When the statement
    cannot be prepared it returns the error of Prepare and rolls the
    transaction back.  In both cases no row is executed and the table is
    as before. *)
Theorem DoInsert_before_the_first_row c calls0 ctx link table first rest e :
  DoInsert c calls0 ctx link table [] = Panic "index out of range [0] with length 0"
  /\ (beginFails c calls0 = Some e ->
      DoInsert c calls0 ctx link table (first :: rest)
      = Return (calls0 ++ [EvBegin])%list None (Some e)
      /\ committed (calls0 ++ [EvBegin])%list = committed calls0)
  /\ (beginFails c calls0 = None ->
      prepareFails c (calls0 ++ [EvBegin])%list
        (insertQuery c table (rangeKeys c first)) = Some e ->
      DoInsert c calls0 ctx link table (first :: rest)
      = Return (calls0 ++ [EvBegin; EvPrepare (insertQuery c table (rangeKeys c first));
                           EvRollback])%list None (Some e)
      /\ committed (calls0 ++ [EvBegin;
                               EvPrepare (insertQuery c table (rangeKeys c first));
                               EvRollback])%list = committed calls0).
Proof.
  split; [reflexivity|]. split.
  - apply DoInsert_begin_failure.
  - apply DoInsert_prepare_failure.
Qed.

(** X7.  A batch all of whose rows succeed returns the result of the last
    [ExecContext]. *)
Theorem DoInsert_returns_last_result c calls0 ctx link table first rest last_row :
  let rows := first :: rest in
  let keys := rangeKeys c first in
  let opened := (calls0 ++ [EvBegin; EvPrepare (insertQuery c table keys)])%list in
  beginFails c calls0 = None ->
  prepareFails c (calls0 ++ [EvBegin])%list (insertQuery c table keys) = None ->
  (forall i row, rows !! i = Some row ->
     snd (execOutcome c (opened ++ execCalls keys (take i rows))%list
            (paramsOf keys row)) = None) ->
  last rows = Some last_row ->
  DoInsert c calls0 ctx link table rows
  = Return (opened ++ execCalls keys rows ++ [EvCommit])%list
      (fst (execOutcome c (opened ++ execCalls keys (take (List.length rest) rows))%list
              (paramsOf keys last_row)))
      None.
Proof.
  intros rows keys opened Hb Hp Hok Hlast.
  destruct (execRows_all c keys rows opened None Hok) as (result & Hrun & _ & Hres).
  specialize (Hres last_row Hlast). cbn [List.length pred] in Hres. subst result.
  subst rows. unfold DoInsert. fold keys. rewrite Hb, Hp.
  replace ((calls0 ++ [EvBegin]) ++ [EvPrepare (insertQuery c table keys)])%list
    with opened by (unfold opened; by rewrite <- app_assoc).
  rewrite Hrun. cbn [finish]. by rewrite <- app_assoc.
Qed.

Lemma execRows_same_params c keys rows rows' calls result :
  Forall2 (fun row row' => paramsOf keys row = paramsOf keys row') rows rows' ->
  execRows c keys rows calls result = execRows c keys rows' calls result.
Proof.
  intros H. revert calls result.
  induction H as [|row row' rows rows' Hrow _ IH]; intros calls result; [done|].
  cbn [execRows]. rewrite Hrow.
  destruct (execOutcome c calls (paramsOf keys row')) as [r [e|]]; [done|].
  apply IH.
Qed.

(** X8.  Only the keys of the first row are sent: two batches with the same
    first row, whose later rows agree pairwise on those keys, come to the
    same calls and the same results, whatever else the later rows hold. *)
Theorem DoInsert_sends_first_row_keys_only c calls0 ctx link table first rest rest' :
  Forall2 (fun row row' => forall k, k ∈ rangeKeys c first -> row !! k = row' !! k)
    rest rest' ->
  DoInsert c calls0 ctx link table (first :: rest)
  = DoInsert c calls0 ctx link table (first :: rest').
Proof.
  intros H. unfold DoInsert.
  destruct (beginFails c calls0); [done|].
  destruct (prepareFails c _ _); [done|].
  rewrite (execRows_same_params c (rangeKeys c first) (first :: rest) (first :: rest')); [done|].
  constructor; [done|].
  eapply Forall2_impl; [exact H|].
  intros row row' Hagree. unfold paramsOf.
  apply map_ext_in. intros k Hk. apply Hagree. by apply list_elem_of_In.
Qed.

End Props.

Import Examples Fixtures.

Lemma DoInsert_begin_failure_witness :
  DoInsert noBeginConn [] [] None "t" [demoRow 1; demoRow 2]
  = Return [EvBegin] None (Some (ErrDriver "begin"))
  /\ committed ([] ++ [EvBegin])%list = (committed [] : list (list (option nat))).
Proof.
  apply (DoInsert_begin_failure noBeginConn [] [] None "t" (demoRow 1) [demoRow 2]
           (ErrDriver "begin")).
  reflexivity.
Defined.

Lemma DoInsert_prepare_failure_witness :
  DoInsert noPrepareConn [] [] None "t" [demoRow 1; demoRow 2]
  = Return [EvBegin; EvPrepare "INSERT INTO t(`id`) VALUES (?)"; EvRollback]
      None (Some (ErrDriver "prepare"))
  /\ committed [EvBegin; EvPrepare "INSERT INTO t(`id`) VALUES (?)"; EvRollback]
     = ([] : list (list (option nat))).
Proof.
  apply (DoInsert_prepare_failure noPrepareConn [] [] None "t" (demoRow 1) [demoRow 2]
           (ErrDriver "prepare")); reflexivity.
Defined.

Lemma DoInsert_returns_last_result_witness :
  DoInsert countingConn [] [] None "t" [demoRow 1; demoRow 2]
  = Return [EvBegin; EvPrepare "INSERT INTO t(`id`) VALUES (?)";
            EvExec [Some 1%nat]; EvExec [Some 2%nat]; EvCommit]
      (Some 3%nat) None.
Proof.
  apply (DoInsert_returns_last_result countingConn [] [] None "t" (demoRow 1) [demoRow 2]
           (demoRow 2)); try reflexivity.
Defined.

Lemma DoInsert_sends_first_row_keys_only_witness :
  DoInsert demoConn [] [] None "t" [demoRow 1; demoRow 3]
  = DoInsert demoConn [] [] None "t" [demoRow 1; <[ "note" := 9%nat ]> (demoRow 3)].
Proof.
  apply (DoInsert_sends_first_row_keys_only demoConn [] [] None "t" (demoRow 1)
           [demoRow 3] [<[ "note" := 9%nat ]> (demoRow 3)]).
  constructor; [|constructor].
  intros k Hk. apply list_elem_of_In in Hk. destruct Hk as [<-|[]].
  vm_compute. reflexivity.
Defined.

End BatchInsertProps.

(** ** The type converter, case by case *)

Module ValueProps.
Import Gdb Clickhouse.

(** X9.  [ConvertValueForField] returns an error only when the value is a
    [driver.Valuer] whose [Value()] fails; then the error is that of
    [Value()] and the converted value is nil. *)
Theorem ConvertValueForField_error_only_from_valuer (ctx : Context)
    (fieldType : string) (fieldValue : value) (e : error) :
  (ConvertValueForField ctx fieldType fieldValue).2 = Some e ->
  (exists tag result, fieldValue = VValuer tag result (Some e))
  /\ (ConvertValueForField ctx fieldType fieldValue).1 = VNil.
Proof.
  destruct fieldValue as [|t|[t|]|g|[g|]|u|d|[d|]|tag result [e'|]|tag];
    cbn [ConvertValueForField];
    try destruct (Time_IsZero _); try destruct (GTime_IsZero _);
    cbn [fst snd]; try discriminate.
  intros [= ->]. split; [by exists tag, result | reflexivity].
Qed.

Lemma ConvertValueForField_error_only_from_valuer_witness :
  (exists tag result,
     VValuer "json" (VOther "json") (Some (ErrDriver "bad value"))
     = VValuer tag result (Some (ErrDriver "bad value")))
  /\ (ConvertValueForField [] "String"
        (VValuer "json" (VOther "json") (Some (ErrDriver "bad value")))).1 = VNil.
Proof.
  apply (ConvertValueForField_error_only_from_valuer [] "String"
           (VValuer "json" (VOther "json") (Some (ErrDriver "bad value")))
           (ErrDriver "bad value")).
  reflexivity.
Defined.

(** X10.  A timestamp that is not zero is never turned into nil: a [time.Time]
    and a pointer to one are handed back as they are, a [gtime.Time] and a
    pointer to one as the [time.Time] they wrap. *)
Theorem ConvertValueForField_keeps_nonzero_time (ctx : Context) (fieldType : string)
    (t : Time) :
  Time_IsZero t = false ->
  ConvertValueForField ctx fieldType (VTime t) = (VTime t, None)
  /\ ConvertValueForField ctx fieldType (VTimePtr (Some t)) = (VTimePtr (Some t), None)
  /\ ConvertValueForField ctx fieldType (VGTime {| wrapped := t |}) = (VTime t, None)
  /\ ConvertValueForField ctx fieldType (VGTimePtr (Some {| wrapped := t |}))
     = (VTime t, None).
Proof.
  intros H. cbn [ConvertValueForField GTime_IsZero wrapped]. rewrite H. by repeat split.
Qed.

Lemma ConvertValueForField_keeps_nonzero_time_witness :
  ConvertValueForField [] "DateTime" (VTime {| sec := 63800000000; nsec := 0 |})
  = (VTime {| sec := 63800000000; nsec := 0 |}, None)
  /\ ConvertValueForField [] "DateTime"
       (VTimePtr (Some {| sec := 63800000000; nsec := 0 |}))
     = (VTimePtr (Some {| sec := 63800000000; nsec := 0 |}), None)
  /\ ConvertValueForField [] "DateTime"
       (VGTime {| wrapped := {| sec := 63800000000; nsec := 0 |} |})
     = (VTime {| sec := 63800000000; nsec := 0 |}, None)
  /\ ConvertValueForField [] "DateTime"
       (VGTimePtr (Some {| wrapped := {| sec := 63800000000; nsec := 0 |} |}))
     = (VTime {| sec := 63800000000; nsec := 0 |}, None).
Proof.
  apply (ConvertValueForField_keeps_nonzero_time [] "DateTime"
           {| sec := 63800000000; nsec := 0 |}).
  reflexivity.
Defined.

(** The conversion looks at the value alone, not at the context or the
    type of the field; a UUID and a decimal are handed back as they are, a
    pointer to a decimal as the decimal it points to (nil when nil), and a
    value of a type the driver does not know as it is. *)
Lemma ConvertValueForField_by_value_alone (ctx ctx' : Context)
    (fieldType fieldType' : string) (fieldValue : value) (u d tag : string) :
  ConvertValueForField ctx fieldType fieldValue
  = ConvertValueForField ctx' fieldType' fieldValue
  /\ ConvertValueForField ctx fieldType (VUUID u) = (VUUID u, None)
  /\ ConvertValueForField ctx fieldType (VDecimal d) = (VDecimal d, None)
  /\ ConvertValueForField ctx fieldType (VDecimalPtr (Some d)) = (VDecimal d, None)
  /\ ConvertValueForField ctx fieldType (VDecimalPtr None) = (VNil, None)
  /\ ConvertValueForField ctx fieldType (VOther tag) = (VOther tag, None).
Proof. by repeat split. Qed.

End ValueProps.

(** ** The columns of a ClickHouse table *)

Module ColumnProps.
Import Str StrFacts Regexp RegexpFacts NumberedFacts GrammarFacts Gdb Clickhouse
  IntrospectorFacts.

Section Props.
Context {Var : Type} `{!VarOps Var}.

Lemma addField_own (result : list (gmap string Var)) (fields : gmap string TableField)
    (m : gmap string Var) :
  exists f, addField result fields m !! rec_String m "name" = Some f
            /\ Name f = rec_String m "name" /\ Key f = EmptyString.
Proof.
  unfold addField.
  destruct (match FindStringSubmatch nullablePattern 1 (rec_String m "type") with
            | [_; inner] => (true, inner)
            | _ => (false, rec_String m "type")
            end) as [isNull fieldType].
  eexists. rewrite lookup_insert_eq. by repeat split.
Qed.

Lemma addField_other (result : list (gmap string Var)) (fields : gmap string TableField)
    (m : gmap string Var) (name : string) :
  name <> rec_String m "name" -> addField result fields m !! name = fields !! name.
Proof.
  intros Hne. unfold addField.
  destruct (match FindStringSubmatch nullablePattern 1 (rec_String m "type") with
            | [_; inner] => (true, inner)
            | _ => (false, rec_String m "type")
            end) as [isNull fieldType].
  by rewrite lookup_insert_ne.
Qed.

(** What holds of every field of the map a run of [addField] builds, when
    it holds of the fields the run starts from. *)
Lemma fold_addField_shape (result rows : list (gmap string Var))
    (fields : gmap string TableField) :
  (forall name f, fields !! name = Some f -> Name f = name /\ Key f = EmptyString) ->
  forall name f, fold_left (addField result) rows fields !! name = Some f ->
                 Name f = name /\ Key f = EmptyString.
Proof.
  revert fields. induction rows as [|m rows IH]; intros fields Hinv; [exact Hinv|].
  cbn [fold_left]. apply IH. intros name f Hf.
  destruct (decide (name = rec_String m "name")) as [->|Hne].
  - destruct (addField_own result fields m) as (f' & Hf' & Hn & Hk). by simplify_eq.
  - rewrite addField_other in Hf by done. by apply Hinv.
Qed.

Lemma fold_addField_covers (result rows : list (gmap string Var))
    (fields : gmap string TableField) (m : gmap string Var) :
  m ∈ rows \/ is_Some (fields !! rec_String m "name") ->
  is_Some (fold_left (addField result) rows fields !! rec_String m "name").
Proof.
  revert fields. induction rows as [|m' rows IH]; intros fields H.
  - destruct H as [H|H]; [by apply elem_of_nil in H | exact H].
  - cbn [fold_left]. apply IH.
    destruct (decide (rec_String m "name" = rec_String m' "name")) as [E|Hne].
    + right. rewrite E. destruct (addField_own result fields m') as (f & -> & _). by eexists.
    + destruct H as [H|H].
      * apply elem_of_cons in H as [->|H]; [done | by left].
      * right. by rewrite addField_other.
Qed.

(** X11.  Every field [TableFields] returns is stored under its own name and has
    an empty key: the driver reports no primary key.  Every row of the
    catalog's answer has its field in the result. *)
Theorem TableFields_names_and_keys (d : Catalog) (ctx : Context) (table : string)
    (schema : list string) (fields : gmap string TableField) :
  TableFields d ctx table schema = inl fields ->
  (forall name f, fields !! name = Some f -> Name f = name /\ Key f = EmptyString)
  /\ (forall link result m,
        SlaveLink d (GetOrDefaultStr (GetSchema d) schema) = inl link ->
        DoSelect d ctx link (getColumnsSql table) = inl result ->
        m ∈ result -> is_Some (fields !! rec_String m "name")).
Proof.
  unfold TableFields. intros Hrun.
  destruct (SlaveLink d (GetOrDefaultStr (GetSchema d) schema)) as [link|e]; [|done].
  destruct (DoSelect d ctx link (getColumnsSql table)) as [result|e] eqn:Hsel; [|done].
  injection Hrun as <-. split.
  - apply fold_addField_shape. intros name f Hf. by rewrite lookup_empty in Hf.
  - intros link' result' m Hl Hs Hin. injection Hl as Hl. subst link'.
    rewrite Hsel in Hs. injection Hs as Hs. subst result'.
    apply fold_addField_covers. by left.
Qed.

(** [TableFields] hands on the error of [SlaveLink] without asking for the
    columns, and the error of the query when that fails. *)
Lemma TableFields_errors (d : Catalog) (ctx : Context) (table : string)
    (schema : list string) (e : error) :
  (SlaveLink d (GetOrDefaultStr (GetSchema d) schema) = inr e ->
   TableFields d ctx table schema = inr e)
  /\ (forall link,
        SlaveLink d (GetOrDefaultStr (GetSchema d) schema) = inl link ->
        DoSelect d ctx link (getColumnsSql table) = inr e ->
        TableFields d ctx table schema = inr e)
  /\ (forall fields, TableFields d ctx table schema = inl fields ->
        exists link result,
          SlaveLink d (GetOrDefaultStr (GetSchema d) schema) = inl link
          /\ DoSelect d ctx link (getColumnsSql table) = inl result).
Proof.
  unfold TableFields. repeat split.
  - by intros ->.
  - by intros link -> ->.
  - intros fields.
    destruct (SlaveLink d (GetOrDefaultStr (GetSchema d) schema)) as [link|e']; [|done].
    destruct (DoSelect d ctx link (getColumnsSql table)) as [result|e'] eqn:Hs; [|done].
    intros _. by exists link, result.
Qed.

(** *** Nullable types *)

(** A lazy star runs on while what follows refuses every shorter run. *)
Lemma star_lazy_run (A : Type) (c : cls) (w rest : string)
    (k : string -> string -> option A) (x : A) :
  Str.forallb (in_cls c) w = true ->
  (forall w1 a w2, w = w1 ++ String a w2 -> k w1 (String a w2 ++ rest) = None) ->
  k w rest = Some x ->
  star false c (w ++ rest) k = Some x.
Proof.
  revert k. induction w as [|a w IH]; intros k Hw Hshort Hk.
  - by apply star_lazy_stop.
  - cbn [Str.forallb] in Hw. apply andb_prop in Hw as [Ha Hw].
    change (String a w ++ rest) with (String a (w ++ rest)).
    cbn [star]. rewrite Ha.
    pose proof (Hshort EmptyString a w eq_refl) as H0.
    change (String a w ++ rest) with (String a (w ++ rest)) in H0.
    rewrite H0. cbn [orelse].
    apply (IH (fun w0 rest0 => k (String a w0) rest0)); [exact Hw | | exact Hk].
    intros w1 a' w2 ->. by apply (Hshort (String a w1) a' w2).
Qed.

Lemma nullable_match (inner rest : string) :
  Str.forallb (fun a => in_cls CAny a && negb (Ascii.eqb ")" a)) inner = true ->
  FindStringSubmatch nullablePattern 1 ("Nullable(" ++ inner ++ ")" ++ rest)
  = ["Nullable(" ++ inner ++ ")"; inner].
Proof.
  intros Hinner.
  assert (Hm : match_at nullablePattern true ("Nullable(" ++ inner ++ ")" ++ rest)
               = Some (Found ("Nullable(" ++ inner ++ ")") [(1%nat, inner)] rest)).
  { unfold match_at, nullablePattern. cbn [exec andb].
    rewrite lit_exact, strip_prefix_app. cbn [String.length Nat.eqb andb].
    erewrite star_lazy_run; [reflexivity | | |].
    - eapply forallb_weaken; [|exact Hinner]. by intros a [? _]%andb_prop.
    - intros w1 a w2 ->. rewrite lit_exact.
      rewrite forallb_app in Hinner. apply andb_prop in Hinner as [_ Hinner].
      cbn [Str.forallb] in Hinner. apply andb_prop in Hinner as [Ha _].
      apply andb_prop in Ha as [_ Ha]. apply negb_true_iff in Ha.
      change (String a w2 ++ ")" ++ rest) with (String a (w2 ++ ")" ++ rest)).
      cbn [strip_prefix]. by rewrite Ha.
    - rewrite lit_exact, strip_prefix_app. do 2 f_equal; same_text. }
  unfold FindStringSubmatch.
  destruct ("Nullable(" ++ inner ++ ")" ++ rest) as [|c s] eqn:E; [done|].
  cbn [find]. rewrite Hm. cbn [whole groups seq List.map sub Nat.eqb]. reflexivity.
Qed.

Lemma nullable_bol_only (s : string) : find nullablePattern false s = None.
Proof. induction s as [|a s IH]; [done|]. cbn [find]. exact IH. Qed.

Lemma nullable_miss (s : string) :
  strip_prefix "Nullable(" s = None -> FindStringSubmatch nullablePattern 1 s = [].
Proof.
  intros H. unfold FindStringSubmatch.
  assert (Hm : match_at nullablePattern true s = None).
  { unfold match_at, nullablePattern. cbn [exec andb]. by rewrite lit_exact, H. }
  destruct s as [|a s]; cbn [find]; rewrite Hm; [done|].
  by rewrite nullable_bol_only.
Qed.

Lemma addField_nullable_type (result : list (gmap string Var))
    (fields : gmap string TableField) (m : gmap string Var) (inner rest : string) :
  rec_String m "type" = "Nullable(" ++ inner ++ ")" ++ rest ->
  Str.forallb (fun a => in_cls CAny a && negb (Ascii.eqb ")" a)) inner = true ->
  exists f, addField result fields m !! rec_String m "name" = Some f
            /\ Type_ f = inner /\ Null f = true.
Proof.
  intros Htype Hinner. unfold addField.
  rewrite Htype, (nullable_match inner rest Hinner).
  eexists. rewrite lookup_insert_eq. by repeat split.
Qed.

Lemma addField_plain_type (result : list (gmap string Var))
    (fields : gmap string TableField) (m : gmap string Var) :
  strip_prefix "Nullable(" (rec_String m "type") = None ->
  exists f, addField result fields m !! rec_String m "name" = Some f
            /\ Type_ f = rec_String m "type" /\ Null f = false.
Proof.
  intros Htype. unfold addField. rewrite (nullable_miss _ Htype).
  eexists. rewrite lookup_insert_eq. by repeat split.
Qed.

(** X13.  A column whose type is [Nullable(inner)], with no closing bracket and
    no line break in [inner], is recorded with the type [inner] and as
    nullable; a column whose type does not begin with [Nullable(] is
    recorded with its type as it is and as not nullable. *)
Theorem addField_type_of_column (result : list (gmap string Var))
    (fields : gmap string TableField) (m : gmap string Var) :
  (forall inner rest,
     rec_String m "type" = "Nullable(" ++ inner ++ ")" ++ rest ->
     Str.forallb (fun a => in_cls CAny a && negb (Ascii.eqb ")" a)) inner = true ->
     exists f, addField result fields m !! rec_String m "name" = Some f
               /\ Type_ f = inner /\ Null f = true)
  /\ (strip_prefix "Nullable(" (rec_String m "type") = None ->
      exists f, addField result fields m !! rec_String m "name" = Some f
                /\ Type_ f = rec_String m "type" /\ Null f = false).
Proof.
  split.
  - intros inner rest. apply addField_nullable_type.
  - apply addField_plain_type.
Qed.

End Props.

Import Examples Fixtures.

Lemma TableFields_names_and_keys_witness :
  (forall name f, collectFields demoColumns !! name = Some f ->
                  Name f = name /\ Key f = EmptyString)
  /\ (forall link result (m : gmap string cell),
        SlaveLink demoCatalog (GetOrDefaultStr (GetSchema demoCatalog) []) = inl link ->
        DoSelect demoCatalog [] link (getColumnsSql "t") = inl result ->
        m ∈ result -> is_Some (collectFields demoColumns !! rec_String m "name")).
Proof.
  apply (TableFields_names_and_keys demoCatalog [] "t" [] (collectFields demoColumns)).
  reflexivity.
Defined.

Lemma addField_nullable_type_witness :
  exists f, addField demoColumns ∅ (column "b" 2 "Nullable(String)")
              !! rec_String (column "b" 2 "Nullable(String)") "name" = Some f
            /\ Type_ f = "String" /\ Null f = true.
Proof.
  apply (addField_nullable_type demoColumns ∅ (column "b" 2 "Nullable(String)")
           "String" EmptyString).
  - vm_compute. reflexivity.
  - reflexivity.
Defined.

Lemma addField_plain_type_witness :
  exists f, addField demoColumns ∅ (column "a" 1 "UInt64")
              !! rec_String (column "a" 1 "UInt64") "name" = Some f
            /\ Type_ f = rec_String (column "a" 1 "UInt64") "type" /\ Null f = false.
Proof.
  apply (addField_plain_type demoColumns ∅ (column "a" 1 "UInt64")).
  vm_compute. reflexivity.
Defined.


End ColumnProps.

(** ** Inserting and executing on PostgreSQL *)

Module InsertProps.
Import Str Gdb Pgsql.

Section Props.
Context {V R Var : Type} `{!VarOps Var}.
Implicit Types (d : @Core V R Var).

(** X15.  Under the options Save, Replace and Ignore [DoInsert] returns its
    not-supported error and no result, whatever the core, the context, the
    table and the rows are: the core is not asked.  Under the default
    option an error of [TableFields], or a table with no [pri] field,
    leaves the context as it is, and the insert goes to the core all the
    same; so does an insert under any other option. *)
Theorem DoInsert_by_option d d' (ctx ctx' : Context) (link link' : option Link)
    (table table' : string) (rows rows' : list (gmap string V)) :
  DoInsert d ctx link table rows InsertOptionSave
  = (None, Some (ErrNotSupported "Save operation is not supported by pgsql driver"))
  /\ DoInsert d ctx link table rows InsertOptionReplace
     = (None, Some (ErrNotSupported "Replace operation is not supported by pgsql driver"))
  /\ DoInsert d ctx link table rows InsertOptionIgnore
     = (None, Some (ErrNotSupported
                      "Insert ignore operation is not supported by pgsql driver"))
  /\ (forall opt, opt = InsertOptionSave \/ opt = InsertOptionReplace
                  \/ opt = InsertOptionIgnore ->
        DoInsert d ctx link table rows opt = DoInsert d' ctx' link' table' rows' opt)
  /\ (forall e, TableFieldsOf d ctx table = inr e ->
        DoInsert d ctx link table rows InsertOptionDefault
        = Core_DoInsert d ctx link table rows InsertOptionDefault)
  /\ (forall fields, TableFieldsOf d ctx table = inl fields ->
        List.find (fun f => String.eqb (Key f) "pri") (rangeFields d fields) = None ->
        DoInsert d ctx link table rows InsertOptionDefault
        = Core_DoInsert d ctx link table rows InsertOptionDefault)
  /\ (forall n, DoInsert d ctx link table rows (InsertOptionOther n)
                = Core_DoInsert d ctx link table rows (InsertOptionOther n)).
Proof.
  unfold DoInsert, withPrimaryKey. repeat split.
  - by intros opt [-> | [-> | ->]].
  - by intros e ->.
  - by intros fields -> ->.
Qed.

(** X16.  Under the default option [DoInsert] hands the rows to the core under
    a context that holds the first field, in the order of iteration, whose
    key is [pri]; that is the value [DoExec] reads. *)
Theorem DoInsert_default_marks_primary_key d (ctx : Context) (link : option Link)
    (table : string) (rows : list (gmap string V)) (fields : gmap string TableField)
    (pk : TableField) :
  TableFieldsOf d ctx table = inl fields ->
  List.find (fun f => String.eqb (Key f) "pri") (rangeFields d fields) = Some pk ->
  DoInsert d ctx link table rows InsertOptionDefault
  = Core_DoInsert d (WithValue ctx internalPrimaryKeyInCtx (CtxField pk)) link table rows
      InsertOptionDefault
  /\ Key pk = "pri"
  /\ Value (WithValue ctx internalPrimaryKeyInCtx (CtxField pk)) internalPrimaryKeyInCtx
     = Some (CtxField pk).
Proof.
  intros Hfields Hfind. repeat split.
  - unfold DoInsert, withPrimaryKey. by rewrite Hfields, Hfind.
  - apply find_some in Hfind as [_ H]. by apply String.eqb_eq in H.
Qed.

(** X17.  [DoExec] picks the link: a transaction link it is given is used as it
    is; a transaction in the context replaces a missing link and a link
    that is no transaction; the master node is asked for only when there
    is neither a link nor a transaction. *)
Theorem pickLink_prefers_transaction d (ctx : Context) (l tx : Link) :
  (IsTransaction l = true -> pickLink d ctx (Some l) = inl l)
  /\ (TXFromCtx d ctx = Some tx -> pickLink d ctx None = inl tx)
  /\ (TXFromCtx d ctx = Some tx -> IsTransaction l = false ->
      pickLink d ctx (Some l) = inl tx)
  /\ (TXFromCtx d ctx = None -> pickLink d ctx (Some l) = inl l)
  /\ (TXFromCtx d ctx = None -> pickLink d ctx None = MasterLink d).
Proof.
  unfold pickLink. repeat split.
  - by intros ->.
  - by intros ->.
  - by intros -> ->.
  - intros ->. by destruct (IsTransaction l).
  - by intros ->.
Qed.

(** X18.  Without a primary-key field in the context, with one of an empty
    name, or for a statement that has no [INSERT INTO] in it (in these
    letters), [DoExec] is the core's [DoExec] on the link picked, with the
    statement and the arguments as they are. *)
Theorem DoExec_core_path d (ctx : Context) (link : option Link) (sql : string)
    (args : list V) (used : Link) :
  pickLink d ctx link = inl used ->
  (forall pk, Value ctx internalPrimaryKeyInCtx = Some (CtxField pk) ->
              Name pk = EmptyString \/ contains sql "INSERT INTO" = false) ->
  DoExec d ctx link sql args
  = (Some (OfCore (Core_DoExec d ctx used sql args).1), (Core_DoExec d ctx used sql args).2).
Proof.
  intros Hlink Hpk. unfold DoExec. rewrite Hlink.
  destruct (Value ctx internalPrimaryKeyInCtx) as [[b|pk|tag]|];
    try by destruct (Core_DoExec d ctx used sql args).
  destruct (Hpk pk eq_refl) as [-> | ->]; cbn [negb andb String.eqb];
    rewrite ?andb_false_r; by destruct (Core_DoExec d ctx used sql args).
Qed.

(** X19.  On the RETURNING path an error of the link or of the commit is handed
    back with no result, and an answer without rows gives the empty
    result. *)
Theorem DoExec_returning_failures d (ctx : Context) (link : option Link) (sql : string)
    (args : list V) (pk : TableField) (e : error) :
  (pickLink d ctx link = inr e -> DoExec d ctx link sql args = (None, Some e))
  /\ (forall used,
        Value ctx internalPrimaryKeyInCtx = Some (CtxField pk) ->
        Name pk <> EmptyString -> contains sql "INSERT INTO" = true ->
        pickLink d ctx link = inl used ->
        (DoCommit d ctx (returningInput d ctx used sql args pk) = inr e ->
         DoExec d ctx link sql args = (None, Some e))
        /\ (DoCommit d ctx (returningInput d ctx used sql args pk) = inl [] ->
            DoExec d ctx link sql args = (Some (OfDriver emptyResult), None))).
Proof.
  split.
  - intros H. unfold DoExec. by rewrite H.
  - intros used Hctx Hname Hsql Hlink.
    assert (Hne : String.eqb (Name pk) EmptyString = false) by by apply String.eqb_neq.
    unfold DoExec, returningInput. rewrite Hlink, Hctx, Hsql, Hne. cbn [negb andb].
    destruct (FormatSqlBeforeExecuting d (sql ++ " RETURNING " ++ Name pk) args)
      as [sql1 args1]. cbn [fst snd].
    assert (Herr : (DoFilter ctx (Some used) sql1 args1).2 = None) by reflexivity.
    destruct (DoFilter ctx (Some used) sql1 args1) as [[sql2 args2] err].
    cbn [fst snd] in *. subst err.
    split; by intros ->.
Qed.

End Props.

Import Examples Fixtures.

Lemma DoInsert_default_marks_primary_key_witness :
  DoInsert failingCore [] None "t" [] InsertOptionDefault
  = Core_DoInsert failingCore
      (WithValue [] internalPrimaryKeyInCtx (CtxField (demoKey "int8"))) None "t" []
      InsertOptionDefault
  /\ Key (demoKey "int8") = "pri"
  /\ Value (WithValue [] internalPrimaryKeyInCtx (CtxField (demoKey "int8")))
       internalPrimaryKeyInCtx
     = Some (CtxField (demoKey "int8")).
Proof.
  apply (DoInsert_default_marks_primary_key failingCore [] None "t" []
           {[ "id" := demoKey "int8" ]} (demoKey "int8")).
  - reflexivity.
  - vm_compute. reflexivity.
Defined.

Lemma DoExec_core_path_witness :
  DoExec demoCore [(internalPrimaryKeyInCtx, CtxField (demoKey "int8"))] None
    "UPDATE t SET a=?" [1%Z]
  = (Some (OfCore
             (Core_DoExec demoCore [(internalPrimaryKeyInCtx, CtxField (demoKey "int8"))]
                {| link_id := 1; IsTransaction := false |} "UPDATE t SET a=?" [1%Z]).1),
     (Core_DoExec demoCore [(internalPrimaryKeyInCtx, CtxField (demoKey "int8"))]
        {| link_id := 1; IsTransaction := false |} "UPDATE t SET a=?" [1%Z]).2).
Proof.
  apply (DoExec_core_path demoCore [(internalPrimaryKeyInCtx, CtxField (demoKey "int8"))]
           None "UPDATE t SET a=?" [1%Z] {| link_id := 1; IsTransaction := false |}).
  - reflexivity.
  - intros pk _. right. reflexivity.
Defined.

End InsertProps.

(** ** The jsonb operator *)

Module JsonbProps.
Import Str StrFacts Regexp RegexpFacts FoldFacts Gdb Canonical
  PlaceholderFacts NumberedFacts LimitFacts GrammarFacts.

Section Skip.

Context {St : Type} (r : re) (f : St -> found -> St * string).

(** Up to the first place where the literal [l0 ++ c] that opens the
    pattern can begin, the text is copied. *)
Lemma replace_go_before (l0 : string) (c : ascii) (st : St) (pre y : string) :
  (forall bol t, strip_prefix (l0 ++ String c EmptyString) t = None ->
                 match_at r bol t = None) ->
  contains (pre ++ l0) (l0 ++ String c EmptyString) = false ->
  replace_go r f st false 0 (pre ++ l0 ++ y)
  = (let (st', out) := replace_go r f st false 0 (l0 ++ y) in (st', pre ++ out)).
Proof.
  intros Hopen. induction pre as [|a pre IH]; intros H.
  - change (EmptyString ++ l0 ++ y) with (l0 ++ y).
    destruct (replace_go r f st false 0 (l0 ++ y)). reflexivity.
  - change (String a pre ++ l0) with (String a (pre ++ l0)) in H.
    apply contains_cons_false in H as [Hhead Htail].
    change (String a pre ++ l0 ++ y) with (String a (pre ++ l0 ++ y)).
    rewrite replace_go_miss.
    + rewrite (IH Htail).
      destruct (replace_go r f st false 0 (l0 ++ y)) as [st' out]. reflexivity.
    + apply Hopen.
      destruct (strip_prefix (l0 ++ String c EmptyString) (String a (pre ++ l0 ++ y)))
        as [t|] eqn:E; [|done].
      change (String a (pre ++ l0 ++ y)) with (String a pre ++ l0 ++ y) in E.
      rewrite <- StrFacts.app_assoc in E.
      apply strip_prefix_within in E as [t' Ht'].
      * change (String a pre ++ l0) with (String a (pre ++ l0)) in Ht'. congruence.
      * rewrite !length_app. simpl. lia.
Qed.

End Skip.

Lemma notword_not_digit (rest : string) :
  starts_in CDigit rest = true -> starts_in CNotWord rest = false.
Proof.
  destruct rest as [|a rest]; [done|]. cbn [starts_in in_cls].
  destruct a as [[] [] [] [] [] [] [] []]; by vm_compute.
Qed.

(** The pattern of the fix-up at a cast that a gap of non-word bytes, the
    marker [$] and a digit follow. *)
Lemma jsonb_match (bol : bool) (gap : string) (digit : ascii) (rest : string) :
  Str.forallb (in_cls CNotWord) gap = true -> is_digit digit = true ->
  match_at Pgsql.jsonbPattern bol ("::jsonb" ++ gap ++ String "$" (String digit rest))
  = Some (Found ("::jsonb" ++ gap ++ String "$" (String digit EmptyString))
            [(1%nat, "::jsonb" ++ gap ++ String "$" (String digit EmptyString));
             (2%nat, gap)] rest).
Proof.
  intros Hgap Hdigit.
  unfold match_at, Pgsql.jsonbPattern. cbn [exec].
  rewrite lit_exact, strip_prefix_app.
  erewrite star_greedy_backtrack; [reflexivity | exact Hgap | reflexivity | | |].
  - apply notword_not_digit. cbn [starts_in in_cls]. exact Hdigit.
  - cbn [in_cls]. by destruct (Ascii.eqb "$" digit) eqn:E;
      [apply Ascii.eqb_eq in E; subst digit|].
  - cbn [in_cls]. rewrite Ascii.eqb_refl, Hdigit.
    reflexivity.
Qed.

(** X20.  A statement whose only marker is a jsonb operator that follows a
    [::jsonb] cast, with bytes other than word characters between, comes
    back as it is: the marker is numbered and then restored. *)
Theorem DoFilter_restores_jsonb_operator (V : Type) (ctx : Context)
    (link : option Link) (args : list V) (pre gap post : string) :
  markerFree pre -> markerFree gap -> markerFree post ->
  Str.forallb (in_cls CNotWord) gap = true ->
  contains (pre ++ "::json") "::jsonb" = false ->
  contains post "::jsonb" = false ->
  contains (pre ++ "::jsonb" ++ gap ++ "?" ++ post) " LIMIT " = false ->
  Pgsql.DoFilter ctx link (pre ++ "::jsonb" ++ gap ++ "?" ++ post) args
  = (pre ++ "::jsonb" ++ gap ++ "?" ++ post, args, None).
Proof.
  intros Hpre Hgap Hpost Hnw Hfirst Hlater Hlimit.
  unfold Pgsql.DoFilter, Core_DoFilter.
  assert (Hfree : Forall markerFree [(pre ++ "::jsonb" ++ gap); post]).
  { repeat constructor; [|exact Hpost]. unfold markerFree.
    apply contains_char_app; [exact Hpre|].
    apply (contains_char_app "?" "::jsonb"); [reflexivity | exact Hgap]. }
  destruct (numberPlaceholders_marked _ _ Hfree) as [_ Hnum].
  replace (pre ++ "::jsonb" ++ gap ++ "?" ++ post)
    with (marked (pre ++ "::jsonb" ++ gap) [post]) by (cbn [marked]; same_text).
  rewrite Hnum. cbn [numbered marked].
  change (dec 1) with "1".
  assert (Hfix : Pgsql.jsonbFix ((pre ++ "::jsonb" ++ gap) ++ "$" ++ "1" ++ post)
                 = (pre ++ "::jsonb" ++ gap) ++ "?" ++ post).
  { unfold Pgsql.jsonbFix, ReplaceAllFunc.
    replace ((pre ++ "::jsonb" ++ gap) ++ "$" ++ "1" ++ post)
      with (pre ++ "::json" ++ (String "b" (gap ++ String "$" (String "1" post))))
      by same_text.
    assert (Hbol : forall s,
              replace_go Pgsql.jsonbPattern Pgsql.restoreJsonb tt true 0 s
              = replace_go Pgsql.jsonbPattern Pgsql.restoreJsonb tt false 0 s)
      by (by destruct s).
    rewrite Hbol.
    rewrite (replace_go_before _ _ "::json" "b" tt pre _ jsonb_opens Hfirst).
    pose proof (jsonb_match false gap "1" post Hnw eq_refl) as Hm.
    assert (Hshape : "::json" ++ String "b" (gap ++ String "$" (String "1" post))
                     = String ":" (":jsonb" ++ gap ++ String "$" (String "1" EmptyString))
                       ++ post) by same_text.
    assert (Hwhole : "::jsonb" ++ gap ++ String "$" (String "1" EmptyString)
                     = String ":" (":jsonb" ++ gap ++ String "$" (String "1" EmptyString)))
      by same_text.
    assert (Htext : "::jsonb" ++ gap ++ String "$" (String "1" post)
                    = String ":" (":jsonb" ++ gap ++ String "$" (String "1" EmptyString))
                      ++ post) by same_text.
    rewrite Htext, Hwhole in Hm. rewrite Hshape.
    rewrite (replace_go_match _ _ tt false ":" _ post _ Hm).
    cbn [Pgsql.restoreJsonb groups sub Nat.eqb].
    rewrite (replace_go_absent _ _ "::jsonb" tt false post jsonb_opens Hlater).
    cbn [snd]. same_text. }
  rewrite Hfix.
  replace ((pre ++ "::jsonb" ++ gap) ++ "?" ++ post)
    with (pre ++ "::jsonb" ++ gap ++ "?" ++ post) by same_text.
  by rewrite (limitFix_absent _ Hlimit).
Qed.

Lemma DoFilter_restores_jsonb_operator_witness :
  Pgsql.DoFilter [] None "SELECT * FROM t WHERE a::jsonb ? 'k'" (@nil Z)
  = ("SELECT * FROM t WHERE a::jsonb ? 'k'", [], None).
Proof.
  apply (DoFilter_restores_jsonb_operator Z [] None [] "SELECT * FROM t WHERE a"
           " " " 'k'"); reflexivity.
Defined.


End JsonbProps.

(** ** Markers and pagination together *)

Module PaginationProps.
Import Str StrFacts Regexp RegexpFacts FoldFacts Gdb Canonical
  PlaceholderFacts NumberedFacts LimitFacts GrammarFacts.

(** A text after the last segment is part of that segment. *)
Lemma with_tail (seg0 : string) (segs : list string) (tail : string) :
  exists s0 ss,
    marked seg0 segs ++ tail = marked s0 ss
    /\ (forall i, numbered i seg0 segs ++ tail = numbered i s0 ss)
    /\ (Forall markerFree (seg0 :: segs) -> markerFree tail ->
        Forall markerFree (s0 :: ss)).
Proof.
  revert seg0. induction segs as [|s segs IH]; intros seg0.
  - exists (seg0 ++ tail), []. repeat split.
    intros H Ht. inversion H; subst. repeat constructor.
    by apply contains_char_app.
  - destruct (IH s) as (s0 & ss & Hm & Hn & Hfree).
    exists seg0, (s0 :: ss). cbn [marked numbered]. repeat split.
    + by rewrite <- Hm, !StrFacts.app_assoc.
    + intros i. by rewrite <- Hn, !StrFacts.app_assoc.
    + intros H Ht. inversion H as [|? ? H0 Hrest]; subst.
      constructor; [exact H0 | by apply Hfree].
Qed.

Lemma forallb_no_marker (p : ascii -> bool) (s : string) :
  p "?"%char = false -> Str.forallb p s = true -> contains s "?" = false.
Proof.
  intros Hp. induction s as [|a s IH]; [done|]. cbn [Str.forallb].
  intros [Ha Hs]%andb_prop. cbn [contains strip_prefix].
  destruct (Ascii.eqb "?" a) eqn:E; [|by apply IH].
  apply Ascii.eqb_eq in E. subst a. congruence.
Qed.

(** X22.  A statement with markers that ends in the clause [ LIMIT a,b] (digits
    [a] and [b], any blanks after the comma) and a marker-free rest, with
    no [::jsonb] and no [" LIMIT "] elsewhere, comes back with its markers
    numbered from 1 and [ LIMIT b OFFSET a] in the place of the clause;
    the parameters are as they were. *)
Theorem DoFilter_numbers_and_paginates (V : Type) (ctx : Context)
    (link : option Link) (args : list V) (seg0 : string) (segs : list string)
    (a ws b post : string) :
  Forall markerFree (seg0 :: segs) -> markerFree post ->
  a <> EmptyString -> Str.forallb is_digit a = true ->
  b <> EmptyString -> Str.forallb is_digit b = true ->
  Str.forallb is_space ws = true ->
  starts_in CDigit post = false ->
  contains (marked seg0 segs ++ " LIMIT") " LIMIT " = false ->
  contains post " LIMIT " = false ->
  contains (marked seg0 segs ++ " LIMIT " ++ a ++ "," ++ ws ++ b ++ post) "::jsonb"
  = false ->
  Pgsql.DoFilter ctx link
    (marked seg0 segs ++ " LIMIT " ++ a ++ "," ++ ws ++ b ++ post) args
  = (numbered 1 seg0 segs ++ " LIMIT " ++ b ++ " OFFSET " ++ a ++ post, args, None).
Proof.
  intros Hfree Hpost Ha Hda Hb Hdb Hws Hstart Hpre Hrest Hjson.
  assert (Htail : markerFree (" LIMIT " ++ a ++ "," ++ ws ++ b ++ post)).
  { unfold markerFree.
    apply (contains_char_app "?" " LIMIT "); [reflexivity|].
    apply contains_char_app; [by apply (forallb_no_marker is_digit)|].
    apply (contains_char_app "?" ","); [reflexivity|].
    apply contains_char_app; [by apply (forallb_no_marker is_space)|].
    apply contains_char_app; [by apply (forallb_no_marker is_digit) | exact Hpost]. }
  destruct (with_tail seg0 segs (" LIMIT " ++ a ++ "," ++ ws ++ b ++ post))
    as (s0 & ss & Hm & Hn & Hfree').
  destruct (with_tail seg0 segs " LIMIT") as (p0 & ps & Hpm & Hpn & _).
  unfold Pgsql.DoFilter, Core_DoFilter.
  rewrite Hm. destruct (numberPlaceholders_marked s0 ss (Hfree' Hfree Htail)) as [_ ->].
  rewrite jsonbFix_absent.
  - rewrite <- Hn. rewrite limitFix_clause; try done.
    rewrite Hpn. rewrite Hpm in Hpre.
    destruct (contains (numbered 1 p0 ps) " LIMIT ") eqn:E; [|done].
    apply contains_numbered in E; [congruence | done | done].
  - rewrite Hm in Hjson.
    destruct (contains (numbered 1 s0 ss) "::jsonb") eqn:E; [|done].
    apply contains_numbered in E; [congruence | done | done].
Qed.

Lemma DoFilter_numbers_and_paginates_witness :
  Pgsql.DoFilter [] None "SELECT * FROM t WHERE a=? AND b=? LIMIT 10, 5" [1%Z; 2%Z]
  = ("SELECT * FROM t WHERE a=$1 AND b=$2 LIMIT 5 OFFSET 10", [1%Z; 2%Z], None).
Proof.
  apply (DoFilter_numbers_and_paginates Z [] None [1%Z; 2%Z]
           "SELECT * FROM t WHERE a=" [" AND b="; EmptyString] "10" " " "5" EmptyString);
    try (reflexivity || discriminate).
  repeat constructor.
Defined.

End PaginationProps.

(** ** The columns of a PostgreSQL table *)

Module CatalogProps.
Import Str StrFacts Regexp RegexpFacts Gdb PgsqlCatalog.

Section Props.
Context {Var : Type} `{!VarOps Var} (var_Bool : Var -> bool).

(** One turn of the loop keeps the counter equal to the number of fields,
    every field under its own name with an index below the counter, and
    the indices distinct. *)
Lemma addField_counts (fields : gmap string TableField) (index : Z)
    (m : gmap string Var) :
  index = Z.of_nat (size fields) ->
  (forall name f, fields !! name = Some f -> Name f = name /\ (0 <= Index f < index)%Z) ->
  (forall n1 n2 f1 f2, fields !! n1 = Some f1 -> fields !! n2 = Some f2 ->
                       Index f1 = Index f2 -> n1 = n2) ->
  let acc := addField var_Bool (fields, index) m in
  acc.2 = Z.of_nat (size acc.1)
  /\ (forall name f, acc.1 !! name = Some f -> Name f = name /\ (0 <= Index f < acc.2)%Z)
  /\ (forall n1 n2 f1 f2, acc.1 !! n1 = Some f1 -> acc.1 !! n2 = Some f2 ->
                          Index f1 = Index f2 -> n1 = n2).
Proof.
  intros Hsize Hshape Hinj. unfold addField.
  destruct (fields !! Clickhouse.rec_String m "field") eqn:E; cbn [fst snd].
  - done.
  - split; [|split].
    + rewrite map_size_insert_None by done. lia.
    + intros name f. destruct (decide (name = Clickhouse.rec_String m "field")) as [->|Hne].
      * rewrite lookup_insert_eq. intros [= <-]. cbn. split; [done | lia].
      * rewrite lookup_insert_ne by done. intros Hf.
        destruct (Hshape name f Hf) as [? ?]. split; [done | lia].
    + intros n1 n2 f1 f2.
      destruct (decide (n1 = Clickhouse.rec_String m "field")) as [->|Hne1];
        destruct (decide (n2 = Clickhouse.rec_String m "field")) as [->|Hne2];
        rewrite ?lookup_insert_eq, ?lookup_insert_ne by done.
      * done.
      * intros [= <-] Hf2. cbn. destruct (Hshape n2 f2 Hf2) as [_ ?]. lia.
      * intros Hf1 [= <-]. cbn. destruct (Hshape n1 f1 Hf1) as [_ ?]. lia.
      * apply Hinj.
Qed.

Lemma fold_addField_counts (rows : list (gmap string Var))
    (fields : gmap string TableField) (index : Z) :
  index = Z.of_nat (size fields) ->
  (forall name f, fields !! name = Some f -> Name f = name /\ (0 <= Index f < index)%Z) ->
  (forall n1 n2 f1 f2, fields !! n1 = Some f1 -> fields !! n2 = Some f2 ->
                       Index f1 = Index f2 -> n1 = n2) ->
  let acc := fold_left (addField var_Bool) rows (fields, index) in
  acc.2 = Z.of_nat (size acc.1)
  /\ (forall name f, acc.1 !! name = Some f -> Name f = name /\ (0 <= Index f < acc.2)%Z)
  /\ (forall n1 n2 f1 f2, acc.1 !! n1 = Some f1 -> acc.1 !! n2 = Some f2 ->
                          Index f1 = Index f2 -> n1 = n2).
Proof.
  revert fields index. induction rows as [|m rows IH]; intros fields index H1 H2 H3.
  - done.
  - cbn [fold_left].
    destruct (addField_counts fields index m H1 H2 H3) as (G1 & G2 & G3).
    destruct (addField var_Bool (fields, index) m) as [fields' index'].
    by apply IH.
Qed.

(** X23.  The fields [TableFields] returns are stored under their own names and
    numbered without gaps or repeats: every index lies between 0 and the
    number of fields, and two fields with one index are one field. *)
Theorem TableFields_indices_are_a_numbering (d : Introspection) (ctx : Context)
    (table : string) (schema : list string) (fields : gmap string TableField) :
  TableFields var_Bool d ctx table schema = inl fields ->
  (forall name f, fields !! name = Some f ->
     Name f = name /\ (0 <= Index f < Z.of_nat (size fields))%Z)
  /\ (forall n1 n2 f1 f2, fields !! n1 = Some f1 -> fields !! n2 = Some f2 ->
                          Index f1 = Index f2 -> n1 = n2).
Proof.
  unfold TableFields. intros Hrun.
  destruct (SlaveLink d _) as [link|e]; [|done].
  destruct (DoSelect d ctx link (structureSql d table)) as [result|e]; [|done].
  injection Hrun as <-. unfold collectFields.
  destruct (fold_addField_counts result ∅ 0%Z) as (G1 & G2 & G3).
  - by rewrite map_size_empty.
  - intros name f Hf. by rewrite lookup_empty in Hf.
  - intros n1 n2 f1 f2 Hf. by rewrite lookup_empty in Hf.
  - split; [|exact G3]. intros name f Hf. rewrite <- G1. by apply G2.
Qed.

Lemma addField_keeps (fields : gmap string TableField) (index : Z)
    (m : gmap string Var) (name : string) (f : TableField) :
  fields !! name = Some f -> (addField var_Bool (fields, index) m).1 !! name = Some f.
Proof.
  intros Hf. unfold addField.
  destruct (fields !! Clickhouse.rec_String m "field") eqn:E; cbn [fst]; [done|].
  rewrite lookup_insert_ne; [done|]. congruence.
Qed.

Lemma fold_addField_first (rows : list (gmap string Var))
    (fields : gmap string TableField) (index : Z) (name : string) (f : TableField) :
  (fold_left (addField var_Bool) rows (fields, index)).1 !! name = Some f ->
  fields !! name = Some f
  \/ (fields !! name = None
      /\ exists i m,
           rows !! i = Some m /\ Clickhouse.rec_String m "field" = name
           /\ (forall j m', (j < i)%nat -> rows !! j = Some m' ->
                 Clickhouse.rec_String m' "field" <> name)
           /\ Type_ f = Clickhouse.rec_String m "type"
           /\ Key f = Clickhouse.rec_String m "key"
           /\ Null f = negb (rec_Bool var_Bool m "null")).
Proof.
  revert fields index. induction rows as [|m0 rows IH]; intros fields index H.
  - by left.
  - cbn [fold_left] in H.
    destruct (addField var_Bool (fields, index) m0) as [fields1 index1] eqn:E1.
    apply IH in H as [H | (Hnone & i & m & Hi & Hname & Hfirst & Hrest)].
    + unfold addField in E1.
      destruct (fields !! Clickhouse.rec_String m0 "field") eqn:E0.
      * injection E1 as <- <-. by left.
      * injection E1 as <- <-.
        destruct (decide (name = Clickhouse.rec_String m0 "field")) as [->|Hne].
        -- right. split; [done|]. rewrite lookup_insert_eq in H. injection H as <-.
           exists 0%nat, m0. split; [done|]. split; [done|].
           split; [intros j m' Hj; lia | by cbn].
        -- rewrite lookup_insert_ne in H by done. by left.
    + right.
      assert (Hf0 : fields !! name = None).
      { destruct (fields !! name) as [f0|] eqn:E0; [|done].
        pose proof (addField_keeps fields index m0 name f0 E0) as Hk.
        rewrite E1 in Hk. cbn [fst] in Hk. congruence. }
      split; [exact Hf0|].
      exists (S i), m. split; [exact Hi|]. split; [exact Hname|].
      split; [|exact Hrest].
      intros j m' Hj Hm'. destruct j as [|j].
      * cbn in Hm'. injection Hm' as <-. intros Heq.
        unfold addField in E1. rewrite Heq, Hf0 in E1. injection E1 as <- <-.
        by rewrite lookup_insert_eq in Hnone.
      * apply (Hfirst j m'); [lia | done].
Qed.

(** X24.  Of the rows of the answer that bear one field name the first decides:
    a field [TableFields] returns has the type, the key and the
    nullability of the first row with its name. *)
Theorem TableFields_first_row_wins (d : Introspection) (ctx : Context)
    (table : string) (schema : list string) (fields : gmap string TableField)
    (name : string) (f : TableField) :
  TableFields var_Bool d ctx table schema = inl fields ->
  fields !! name = Some f ->
  exists link result i m,
    SlaveLink d (Clickhouse.GetOrDefaultStr (GetSchema d) schema) = inl link
    /\ DoSelect d ctx link (structureSql d table) = inl result
    /\ result !! i = Some m /\ Clickhouse.rec_String m "field" = name
    /\ (forall j m', (j < i)%nat -> result !! j = Some m' ->
          Clickhouse.rec_String m' "field" <> name)
    /\ Type_ f = Clickhouse.rec_String m "type"
    /\ Key f = Clickhouse.rec_String m "key"
    /\ Null f = negb (rec_Bool var_Bool m "null").
Proof.
  unfold TableFields. intros Hrun Hf.
  destruct (SlaveLink d _) as [link|e] eqn:Hl; [|done].
  destruct (DoSelect d ctx link (structureSql d table)) as [result|e] eqn:Hs; [|done].
  injection Hrun as <-. unfold collectFields in Hf.
  apply fold_addField_first in Hf as [Hf | (_ & i & m & H)].
  - by rewrite lookup_empty in Hf.
  - by exists link, result, i, m.
Qed.

End Props.

Import Examples Fixtures.

Lemma TableFields_indices_are_a_numbering_witness :
  (forall name f, collectFields cell_Bool pgColumns !! name = Some f ->
     Name f = name
     /\ (0 <= Index f < Z.of_nat (size (collectFields cell_Bool pgColumns)))%Z)
  /\ (forall n1 n2 f1 f2,
        collectFields cell_Bool pgColumns !! n1 = Some f1 ->
        collectFields cell_Bool pgColumns !! n2 = Some f2 ->
        Index f1 = Index f2 -> n1 = n2).
Proof.
  apply (TableFields_indices_are_a_numbering cell_Bool pgIntrospection [] "t" []
           (collectFields cell_Bool pgColumns)).
  reflexivity.
Defined.

Lemma TableFields_first_row_wins_witness :
  exists link result i (m : gmap string cell),
    SlaveLink pgIntrospection (Clickhouse.GetOrDefaultStr (GetSchema pgIntrospection) [])
    = inl link
    /\ DoSelect pgIntrospection [] link (structureSql pgIntrospection "t") = inl result
    /\ result !! i = Some m /\ Clickhouse.rec_String m "field" = "id"
    /\ (forall j m', (j < i)%nat -> result !! j = Some m' ->
          Clickhouse.rec_String m' "field" <> "id")
    /\ "int8" = Clickhouse.rec_String m "type"
    /\ "pri" = Clickhouse.rec_String m "key"
    /\ true = negb (rec_Bool cell_Bool m "null").
Proof.
  apply (TableFields_first_row_wins cell_Bool pgIntrospection [] "t" []
           (collectFields cell_Bool pgColumns) "id"
           {| Index := 0; Name := "id"; Type_ := "int8"; Null := true; Key := "pri";
              Default := None; Comment := EmptyString |}).
  - reflexivity.
  - vm_compute. reflexivity.
Defined.

End CatalogProps.

(** ** The server version and the local types of PostgreSQL *)

Module VersionProps.
Import Str StrFacts Regexp RegexpFacts FoldFacts NumberedFacts LimitFacts GrammarFacts
  Gdb PgsqlCatalog.

Lemma version_match (a b post : string) :
  a <> EmptyString -> Str.forallb is_digit a = true ->
  b <> EmptyString -> Str.forallb is_digit b = true ->
  starts_in CDigit post = false ->
  match_at versionPattern true ("PostgreSQL " ++ a ++ "." ++ b ++ post)
  = Some (Found ("PostgreSQL " ++ a ++ "." ++ b) [(1%nat, a ++ "." ++ b)] post).
Proof.
  intros Ha Hda Hb Hdb Hpost.
  destruct a as [|a0 a]; [done|]. destruct b as [|b0 b]; [done|].
  cbn [Str.forallb] in Hda, Hdb.
  apply andb_prop in Hda as [Ha0 Hda]. apply andb_prop in Hdb as [Hb0 Hdb].
  unfold match_at, versionPattern, Plus. cbn [exec].
  rewrite lit_exact, strip_prefix_app.
  change (String a0 a ++ "." ++ String b0 b ++ post)
    with (String a0 (a ++ "." ++ String b0 b ++ post)).
  cbn [in_cls]. rewrite Ha0.
  erewrite star_greedy_run; [reflexivity | exact Hda | reflexivity |].
  cbn beta.
  change ("." ++ String b0 b ++ post) with (String "." (String b0 (b ++ post))).
  cbn [in_cls]. rewrite Ascii.eqb_refl, Hb0.
  erewrite star_greedy_run; [reflexivity | exact Hdb | exact Hpost |].
  reflexivity.
Qed.

Section Props.
Context {Var : Type} `{!VarOps Var}.

(** X25.  From a version text that begins [PostgreSQL a.b], with [a] and [b]
    runs of digits and no digit behind, [version] reads [a.b]. *)
Theorem version_reads_major_minor (d : Introspection) (ctx : Context) (link : Link)
    (r0 : gmap string Var) (rows : list (gmap string Var)) (v : Var)
    (a b post : string) :
  DoSelect d ctx link "SELECT version();" = inl (r0 :: rows) ->
  r0 !! "version" = Some v ->
  var_String v = "PostgreSQL " ++ a ++ "." ++ b ++ post ->
  a <> EmptyString -> Str.forallb is_digit a = true ->
  b <> EmptyString -> Str.forallb is_digit b = true ->
  starts_in CDigit post = false ->
  version d ctx link = a ++ "." ++ b.
Proof.
  intros Hsel Hv Htext Ha Hda Hb Hdb Hpost.
  unfold version. rewrite Hsel, Hv, Htext. unfold FindStringSubmatch.
  pose proof (version_match a b post Ha Hda Hb Hdb Hpost) as Hm.
  change ("PostgreSQL " ++ a ++ "." ++ b ++ post)
    with (String "P" ("ostgreSQL " ++ a ++ "." ++ b ++ post)) in *.
  cbn [find]. rewrite Hm. reflexivity.
Qed.

Lemma version_opens (bol : bool) (t : string) :
  strip_prefix "PostgreSQL " t = None -> match_at versionPattern bol t = None.
Proof.
  intros H. unfold match_at, versionPattern. cbn [exec]. by rewrite lit_exact, H.
Qed.

Lemma find_absent (r : re) (l : string) (bol : bool) (s : string) :
  l <> EmptyString ->
  (forall bol' t, strip_prefix l t = None -> match_at r bol' t = None) ->
  contains s l = false -> find r bol s = None.
Proof.
  intros Hl Hopen. revert bol. induction s as [|a s IH]; intros bol H.
  - cbn [find]. rewrite Hopen; [done|]. by destruct l.
  - apply contains_cons_false in H as [Hhead Htail].
    cbn [find]. rewrite Hopen by done. by apply IH.
Qed.

(** X26.  [version] gives the empty text, and no error, when the query fails,
    when it returns no row, when the first row has no [version] column, and
    when the text of that column has no [PostgreSQL ] in it. *)
Theorem version_falls_back_to_empty (d : Introspection) (ctx : Context) (link : Link) :
  (forall e, DoSelect d ctx link "SELECT version();" = inr e ->
             version d ctx link = EmptyString)
  /\ (DoSelect d ctx link "SELECT version();" = inl [] ->
      version d ctx link = EmptyString)
  /\ (forall r0 rows, DoSelect d ctx link "SELECT version();" = inl (r0 :: rows) ->
        r0 !! "version" = None -> version d ctx link = EmptyString)
  /\ (forall r0 rows v, DoSelect d ctx link "SELECT version();" = inl (r0 :: rows) ->
        r0 !! "version" = Some v ->
        contains (var_String v) "PostgreSQL " = false ->
        version d ctx link = EmptyString).
Proof.
  unfold version. repeat split.
  - by intros e ->.
  - by intros ->.
  - by intros r0 rows -> ->.
  - intros r0 rows v -> -> H. unfold FindStringSubmatch.
    by rewrite (find_absent versionPattern "PostgreSQL " true _ ltac:(done) version_opens H).
Qed.

End Props.

(** *** Local types *)

Lemma star_none (A : Type) (g : bool) (c : cls) (s : string)
    (k : string -> string -> option A) :
  (forall w r, s = w ++ r -> k w r = None) -> star g c s k = None.
Proof.
  revert k. induction s as [|a s IH]; intros k H.
  - cbn [star]. by apply (H EmptyString EmptyString).
  - cbn [star].
    assert (Hin : star g c s (fun w rest => k (String a w) rest) = None).
    { apply IH. intros w r ->. by apply (H (String a w) r). }
    rewrite Hin, (H EmptyString (String a s) eq_refl).
    by destruct (in_cls c a), g.
Qed.

Lemma typePattern_needs_bracket (bol : bool) (s : string) :
  contains s "(" = false -> find typePattern bol s = None.
Proof.
  assert (Hat : forall b t, contains t "(" = false -> match_at typePattern b t = None).
  { intros b t Ht. unfold match_at, typePattern, Plus. cbn [exec].
    destruct t as [|a t]; [done|]. destruct (in_cls CAny a); [|done].
    apply star_none. intros w r Hr.
    assert (Hhead : strip_prefix "(" r = None).
    { apply contains_head_false. apply (contains_within (String a w) r EmptyString).
      rewrite app_empty_r. change (String a w ++ r) with (String a (w ++ r)).
      by rewrite <- Hr. }
    destruct r as [|c r]; [done|]. cbn [strip_prefix] in Hhead. cbn [in_cls].
    by destruct (Ascii.eqb "(" c). }
  revert bol. induction s as [|a s IH]; intros bol H.
  - cbn [find]. by rewrite Hat.
  - cbn [find]. rewrite (Hat _ _ H).
    apply contains_cons_false in H as [_ H]. by apply IH.
Qed.

Section LocalTypes.
Context {T FV : Type} (Trim : string -> string)
  (Core_CheckLocalTypeForField : Context -> string -> FV -> T).

(** X27.  For a type name of ASCII bytes without an opening bracket,
    [CheckLocalTypeForField] decides by the name in lower case: [int2] and
    [int4] are int, [int8] is int64, [_int2] and [_int4] are slices of int,
    [_int8] is a slice of int64, and any other name is left to the core. *)
Theorem CheckLocalTypeForField_by_lower_case_name (ctx : Context) (fieldType : string)
    (fieldValue : FV) :
  Str.forallb (fun a => (code a <? 128)%nat) fieldType = true ->
  contains fieldType "(" = false ->
  let answer := CheckLocalTypeForField Trim Core_CheckLocalTypeForField ctx
                  fieldType fieldValue in
  let name := ToLower fieldType in
  (name = "int2" \/ name = "int4" -> answer = inl LocalTypeInt)
  /\ (name = "int8" -> answer = inl LocalTypeInt64)
  /\ (name = "_int2" \/ name = "_int4" -> answer = inl LocalTypeIntSlice)
  /\ (name = "_int8" -> answer = inl LocalTypeInt64Slice)
  /\ (~ In name ["int2"; "int4"; "int8"; "_int2"; "_int4"; "_int8"] ->
      answer = inr (Core_CheckLocalTypeForField ctx fieldType fieldValue)).
Proof.
  intros _ Hplain answer name.
  assert (Hname : typeNameOf Trim fieldType = name).
  { unfold typeNameOf, FindStringSubmatch.
    by rewrite (typePattern_needs_bracket true fieldType Hplain). }
  subst answer. unfold CheckLocalTypeForField. rewrite Hname.
  repeat split.
  - by intros [-> | ->].
  - by intros ->.
  - by intros [-> | ->].
  - by intros ->.
  - intros Hother.
    repeat match goal with
           | |- context [String.eqb name ?x] =>
               destruct (String.eqb_spec name x) as [E|_];
               [exfalso; apply Hother; rewrite E; cbn; tauto | cbn [orb]]
           end.
    reflexivity.
Qed.

End LocalTypes.

Lemma bracket_opens (bol : bool) (t : string) :
  strip_prefix "(" t = None -> match_at bracketPattern bol t = None.
Proof.
  intros H. unfold match_at, bracketPattern. cbn [exec].
  destruct t as [|a t]; [done|]. cbn [strip_prefix] in H. cbn [in_cls].
  by destruct (Ascii.eqb "(" a).
Qed.

Section LocalValues.
Context {T1 T2 FV : Type} (Trim : string -> string)
  (Core_CheckLocalTypeForField : Context -> string -> FV -> T1)
  (gconv_String : FV -> string) (gconv_Int gconv_Int64 : string -> Z)
  (gconv_Ints gconv_Int64s : string -> list Z) (bracesToBrackets : string -> string)
  (Core_ConvertValueForLocal : Context -> string -> FV -> T2).

(** X28.  For a type name of ASCII bytes without an opening bracket,
    [ConvertValueForLocal] converts to the local type that
    [CheckLocalTypeForField] names, and leaves to the core exactly what
    that leaves to the core. *)
Theorem ConvertValueForLocal_agrees_with_CheckLocalTypeForField (ctx : Context)
    (fieldType : string) (fieldValue : FV) :
  Str.forallb (fun a => (code a <? 128)%nat) fieldType = true ->
  contains fieldType "(" = false ->
  let converted :=
    ConvertValueForLocal gconv_String gconv_Int gconv_Int64 gconv_Ints gconv_Int64s
      bracesToBrackets Core_ConvertValueForLocal ctx fieldType fieldValue in
  match CheckLocalTypeForField Trim Core_CheckLocalTypeForField ctx fieldType fieldValue with
  | inl LocalTypeInt => converted = LocalInt (gconv_Int (gconv_String fieldValue))
  | inl LocalTypeInt64 => converted = LocalInt64 (gconv_Int64 (gconv_String fieldValue))
  | inl LocalTypeIntSlice =>
      converted = LocalInts (gconv_Ints (bracesToBrackets (gconv_String fieldValue)))
  | inl LocalTypeInt64Slice =>
      converted = LocalInt64s (gconv_Int64s (bracesToBrackets (gconv_String fieldValue)))
  | inr _ => converted = LocalOfCore (Core_ConvertValueForLocal ctx fieldType fieldValue)
  end.
Proof.
  intros _ Hplain converted. subst converted.
  unfold CheckLocalTypeForField, ConvertValueForLocal.
  assert (Hname : typeNameOf Trim fieldType = ToLower fieldType).
  { unfold typeNameOf, FindStringSubmatch.
    by rewrite (typePattern_needs_bracket true fieldType Hplain). }
  assert (Hsame : ReplaceAllString bracketPattern EmptyString fieldType = fieldType).
  { unfold ReplaceAllString, ReplaceAllFunc.
    by rewrite (replace_go_absent _ _ "(" tt true fieldType bracket_opens Hplain). }
  rewrite Hname, Hsame.
  destruct (String.eqb (ToLower fieldType) "int2" || String.eqb (ToLower fieldType) "int4");
    [reflexivity|].
  destruct (String.eqb (ToLower fieldType) "int8"); [reflexivity|].
  destruct (String.eqb (ToLower fieldType) "_int2"
            || String.eqb (ToLower fieldType) "_int4"); [reflexivity|].
  by destruct (String.eqb (ToLower fieldType) "_int8").
Qed.

End LocalValues.

Import Examples Fixtures.

Lemma version_reads_major_minor_witness :
  version pgIntrospection [] {| link_id := 1; IsTransaction := false |} = "14.5".
Proof.
  apply (version_reads_major_minor pgIntrospection [] {| link_id := 1; IsTransaction := false |}
           {[ "version" := CellText "PostgreSQL 14.5 on x86_64-pc-linux-gnu" ]} []
           (CellText "PostgreSQL 14.5 on x86_64-pc-linux-gnu")
           "14" "5" " on x86_64-pc-linux-gnu"); (reflexivity || discriminate).
Defined.

Lemma CheckLocalTypeForField_by_lower_case_name_witness :
  let answer := CheckLocalTypeForField (fun s => s) (fun _ t (_ : unit) => t) []
                  "INT8" tt in
  let name := ToLower "INT8" in
  (name = "int2" \/ name = "int4" -> answer = inl LocalTypeInt)
  /\ (name = "int8" -> answer = inl LocalTypeInt64)
  /\ (name = "_int2" \/ name = "_int4" -> answer = inl LocalTypeIntSlice)
  /\ (name = "_int8" -> answer = inl LocalTypeInt64Slice)
  /\ (~ In name ["int2"; "int4"; "int8"; "_int2"; "_int4"; "_int8"] ->
      answer = inr "INT8").
Proof.
  apply (CheckLocalTypeForField_by_lower_case_name (fun s => s)
           (fun _ t (_ : unit) => t) [] "INT8" tt); reflexivity.
Defined.

Lemma ConvertValueForLocal_agrees_with_CheckLocalTypeForField_witness :
  let converted :=
    ConvertValueForLocal (fun n : Z => "7") (fun _ => 7%Z) (fun _ => 7%Z) (fun _ => [7%Z])
      (fun _ => [7%Z]) (fun s => s) (fun _ t _ => t) [] "INT8" 7%Z in
  match CheckLocalTypeForField (fun s => s) (fun _ t (_ : Z) => t) [] "INT8" 7%Z with
  | inl LocalTypeInt => converted = LocalInt 7%Z
  | inl LocalTypeInt64 => converted = LocalInt64 7%Z
  | inl LocalTypeIntSlice => converted = LocalInts [7%Z]
  | inl LocalTypeInt64Slice => converted = LocalInt64s [7%Z]
  | inr _ => converted = LocalOfCore "INT8"
  end.
Proof.
  apply (ConvertValueForLocal_agrees_with_CheckLocalTypeForField (fun s => s)
           (fun _ t (_ : Z) => t) (fun n : Z => "7") (fun _ => 7%Z) (fun _ => 7%Z)
           (fun _ => [7%Z]) (fun _ => [7%Z]) (fun s => s) (fun _ t _ => t) [] "INT8" 7%Z);
    reflexivity.
Defined.

End VersionProps.

(** ** Pings, table lists and JSON bytes *)

Module NodeProps.
Import Gdb Clickhouse ClickhouseOps.

(** X29.  [ping] returns nil exactly when the connection's [Ping] does; an
    exception of the server is returned as the text [[code]message], any
    other error as it is; [PingMaster] and [PingSlave] return the error of
    the node without a ping when the node cannot be had. *)
Theorem ping_translates_exceptions (conn : DB) (d : Nodes) (code : Z)
    (message : string) (e : error) :
  (ping conn = PingNil <-> Ping conn = None)
  /\ (Ping conn = Some (PingException code message) ->
      ping conn = PingText ("[" ++ decZ code ++ "]" ++ message))
  /\ (Ping conn = Some (PingFailure e) -> ping conn = PingSame e)
  /\ (Master d = inr e -> PingMaster d = PingSame e)
  /\ (Slave d = inr e -> PingSlave d = PingSame e)
  /\ (Master d = inl conn -> PingMaster d = ping conn)
  /\ (Slave d = inl conn -> PingSlave d = ping conn).
Proof.
  unfold PingMaster, PingSlave, ping. repeat split; try by intros ->.
  by destruct (Ping conn) as [[]|].
Qed.

Section Listing.
Context {Var : Type} `{!VarOps Var}.

(** X12.  [Tables] returns the [name] column of every row of the answer, in the
    order of the rows; the query names the configured database, whatever
    schema is asked for; when the link or the query fails the error comes
    back with no names. *)
Theorem Tables_lists_the_name_column (d : TablesEnv) (ctx : Context)
    (schema : list string) :
  (forall link result,
     SlaveLinkOf d schema = inl link ->
     Select d ctx link ("select name from `system`.tables where database = '"
                        ++ ConfigName d ++ "'") = inl result ->
     Tables d ctx schema = (List.map (fun m => rec_String m "name") result, None))
  /\ (forall e, SlaveLinkOf d schema = inr e -> Tables d ctx schema = ([], Some e))
  /\ (forall link e,
        SlaveLinkOf d schema = inl link ->
        Select d ctx link (tablesQuery (ConfigName d)) = inr e ->
        Tables d ctx schema = ([], Some e)).
Proof.
  unfold Tables, tablesQuery. repeat split.
  - by intros link result -> ->.
  - by intros e ->.
  - by intros link e -> ->.
Qed.

End Listing.

End NodeProps.

Module GconvProps.
Import Gdb Gconv.

(** X30.  [iddConvertDiy] answers the two JSON type names and the two JSONMap
    type names, with or without the pointer star, and returns the
    unsupported-cast error for every other type name.  For JSON the bytes
    are those of [iddToDatatypesJSON]: the bytes of a text (from which the
    text can be read back), byte slices as they are, nil for nil and for a
    nil pointer, and for a value under a pointer what the value itself
    gives. *)
Theorem iddConvertDiy_type_names_and_bytes (M : Type) (Map : from -> M)
    (toTypeName : string) (fromValue : from) (s : string) (b : bytes) :
  (toTypeName = "datatypes.JSON" \/ toTypeName = "*datatypes.JSON" ->
   iddConvertDiy Map toTypeName fromValue = AsJSON (iddToDatatypesJSON fromValue))
  /\ (toTypeName = "datatypes.JSONMap" \/ toTypeName = "*datatypes.JSONMap" ->
      iddConvertDiy Map toTypeName fromValue = AsMap (Map fromValue))
  /\ (~ In toTypeName ["datatypes.JSON"; "*datatypes.JSON"; "datatypes.JSONMap";
                       "*datatypes.JSONMap"] ->
      iddConvertDiy Map toTypeName fromValue = Unsupported toTypeName)
  /\ iddToDatatypesJSON FromNil = None
  /\ iddToDatatypesJSON (FromString s) = Some (list_byte_of_string s)
  /\ string_of_list_byte (default [] (iddToDatatypesJSON (FromString s))) = s
  /\ iddToDatatypesJSON (FromStringPtr (Some s)) = iddToDatatypesJSON (FromString s)
  /\ iddToDatatypesJSON (FromBytesPtr (Some b)) = iddToDatatypesJSON (FromBytes b)
  /\ iddToDatatypesJSON (FromRawPtr (Some b)) = iddToDatatypesJSON (FromRaw b)
  /\ iddToDatatypesJSON (FromBytes b) = b
  /\ iddToDatatypesJSON (FromRaw b) = b
  /\ iddToDatatypesJSON (FromStringPtr None) = None
  /\ iddToDatatypesJSON (FromBytesPtr None) = None
  /\ iddToDatatypesJSON (FromRawPtr None) = None.
Proof.
  unfold iddConvertDiy. repeat split.
  - by intros [-> | ->].
  - by intros [-> | ->].
  - intros Hother.
    repeat match goal with
           | |- context [String.eqb toTypeName ?x] =>
               destruct (String.eqb_spec toTypeName x) as [E|_];
               [exfalso; apply Hother; rewrite E; cbn; tauto | cbn [orb]]
           end.
    reflexivity.
  - cbn. apply string_of_list_byte_of_string.
Qed.

End GconvProps.
